(** * simple-malloc: a first-fit allocator over an sbrk-grown heap

    Shallow embedding of [simple-malloc.c] (xmalloc / xfree version 4.0)
    and the properties of its free-list management.

    Machine model (LP64, little endian):
    - [size_t] and pointers are 64-bit; every arithmetic result is reduced
      modulo [2^64] where the C code computes in [size_t] or on pointers;
    - [struct header] is 32 bytes: [size] at offset 0, [free] (one byte) at
      offset 8, [next] at offset 16, [prev] at offset 24;
    - memory is a flat store of 8-byte words keyed by their address.  The
      break only moves by multiples of 8 and every block size is a multiple
      of 8, so all header words of one run are congruent modulo 8 and two
      accesses either hit the same word or disjoint ones.  [free] is the low
      byte of the word at offset 8; writing it keeps the seven padding bytes;
    - the globals [head] and [tail] live outside the heap and are fields of
      the allocator state;
    - [sbrk] is the collaborator that extends the region: it hands out the
      current break and advances it, or refuses when the request does not
      fit below [limit].  The request is read as unsigned, where the system
      reads one of [2^63] or more as a negative increment;
    - every address is readable and writable: an access beyond the break is
      carried out like any other, as it is inside the last mapped page;
    - the two loops that walk the chain take a fuel argument and yield
      [None] when it runs out, which is how a cyclic chain shows. *)

From Stdlib Require Import ZArith Lia List Bool.
From stdpp Require Import base gmap.
Import ListNotations.
Local Open Scope Z_scope.

(** ** Machine words *)

Definition WORD_BITS : Z := 64.
Definition modulus : Z := 2 ^ WORD_BITS.

(** Reduction of an integer to a [size_t] / pointer value. *)
Definition wrap (z : Z) : Z := z mod modulus.

Definition NULL : Z := 0.

(** [(void* )-1], the value [sbrk] returns on failure. *)
Definition SBRK_FAILED : Z := wrap (-1).

(** [sizeof(size_t)] *)
Definition ALIGNMENT : Z := 8.

(** [sizeof(struct header)] *)
Definition HEADER_SIZE : Z := 32.

(** [#define ALIGN(size) (((size) + (ALIGNMENT-1)) & ~(ALIGNMENT-1))] *)
Definition ALIGN (size : Z) : Z :=
  Z.land (wrap (size + (ALIGNMENT - 1))) (wrap (Z.lnot (ALIGNMENT - 1))).


(** ** Memory and header fields *)

Definition load (m : gmap Z Z) (a : Z) : Z := m !!! a.
Definition store (m : gmap Z Z) (a v : Z) : gmap Z Z := <[a := v]> m.

Definition OFF_SIZE : Z := 0.
Definition OFF_FREE : Z := 8.
Definition OFF_NEXT : Z := 16.
Definition OFF_PREV : Z := 24.

(** Address of the field at offset [off] of the header at [p]. *)
Definition field (p off : Z) : Z := wrap (p + off).

Definition low_byte (w : Z) : Z := w mod 256.
Definition set_low_byte (w b : Z) : Z := 256 * (w / 256) + b.

Definition get_size (m : gmap Z Z) (p : Z) : Z := load m (field p OFF_SIZE).
Definition get_free (m : gmap Z Z) (p : Z) : bool :=
  negb (low_byte (load m (field p OFF_FREE)) =? 0).
Definition get_next (m : gmap Z Z) (p : Z) : Z := load m (field p OFF_NEXT).
Definition get_prev (m : gmap Z Z) (p : Z) : Z := load m (field p OFF_PREV).

Definition set_size (p v : Z) (m : gmap Z Z) : gmap Z Z :=
  store m (field p OFF_SIZE) v.
Definition set_free (p : Z) (b : bool) (m : gmap Z Z) : gmap Z Z :=
  store m (field p OFF_FREE)
        (set_low_byte (load m (field p OFF_FREE)) (Z.b2z b)).
Definition set_next (p v : Z) (m : gmap Z Z) : gmap Z Z :=
  store m (field p OFF_NEXT) v.
Definition set_prev (p v : Z) (m : gmap Z Z) : gmap Z Z :=
  store m (field p OFF_PREV) v.

(** ** Allocator state *)

Record heap : Type := Heap {
  mem : gmap Z Z;   (* the process memory *)
  head : Z;         (* struct header *head *)
  tail : Z;         (* struct header *tail *)
  brk : Z;          (* current program break *)
  limit : Z         (* highest break the system grants *)
}.

Definition with_mem (st : heap) (m : gmap Z Z) : heap :=
  Heap m (head st) (tail st) (brk st) (limit st).
Definition with_head (st : heap) (h : Z) : heap :=
  Heap (mem st) h (tail st) (brk st) (limit st).
Definition with_tail (st : heap) (t : Z) : heap :=
  Heap (mem st) (head st) t (brk st) (limit st).
Definition with_brk (st : heap) (b : Z) : heap :=
  Heap (mem st) (head st) (tail st) b (limit st).

(** A process that has not allocated yet: both globals are [NULL]. *)
Definition fresh (m : gmap Z Z) (base lim : Z) : heap :=
  Heap m NULL NULL base lim.

(** ** The system call *)

Definition sbrk (increment : Z) (st : heap) : Z * heap :=
  if brk st + increment <=? limit st
  then (brk st, with_brk st (brk st + increment))
  else (SBRK_FAILED, st).

(** ** The allocator, function by function *)

Definition init_header (header size : Z) (free : bool) (m : gmap Z Z)
  : gmap Z Z :=
  set_prev header NULL
    (set_next header NULL
       (set_free header free
          (set_size header size m))).

Definition get_raw_heap_mem (size : Z) (st : heap) : Z * heap :=
  let (request, st1) := sbrk size st in
  if request =? SBRK_FAILED then (NULL, st1) else (request, st1).

Definition get_heap_mem (size : Z) (st : heap) : Z * heap :=
  let (block, st1) := get_raw_heap_mem (wrap (HEADER_SIZE + size)) st in
  if block =? NULL then (NULL, st1)
  else (block, with_mem st1 (init_header block size false (mem st1))).

Definition can_split_block (m : gmap Z Z) (block req_size : Z) : bool :=
  req_size <? wrap (get_size m block + HEADER_SIZE).

(** [(struct header* )(char* )(lhs_block+1) + size]: the cast to
    [struct header*] binds tighter than [+], so [size] counts headers. *)
Definition rhs_address (lhs_block size : Z) : Z :=
  wrap (wrap (lhs_block + HEADER_SIZE) + HEADER_SIZE * size).

(** [lhs_block->size - size - HEADER_SIZE] in [size_t]. *)
Definition rhs_size (m : gmap Z Z) (lhs_block size : Z) : Z :=
  wrap (get_size m lhs_block - size - HEADER_SIZE).

Definition split_block (lhs_block size : Z) (st : heap) : Z * heap :=
  let rhs_block := rhs_address lhs_block size in
  let m1 := init_header rhs_block (rhs_size (mem st) lhs_block size) true
                        (mem st) in
  let m2 := set_size lhs_block size m1 in
  let m3 := set_free lhs_block false m2 in
  let m4 := set_prev rhs_block lhs_block m3 in
  let m5 := set_next rhs_block (get_next m4 lhs_block) m4 in
  let m6 := if get_next m5 lhs_block =? NULL then m5
            else set_prev (get_next m5 lhs_block) rhs_block m5 in
  let m7 := set_next lhs_block rhs_block m6 in
  let t := if lhs_block =? tail st then rhs_block else tail st in
  (lhs_block, Heap m7 (head st) t (brk st) (limit st)).

(** The [while] loop of [search_free_list].  [None] means the fuel ran out
    before the loop left. *)
Fixpoint scan (fuel : nat) (m : gmap Z Z) (size curr_blk : Z) : option Z :=
  match fuel with
  | O => None
  | S fuel' =>
      if negb (curr_blk =? NULL)
         && negb ((size <=? get_size m curr_blk) && get_free m curr_blk)
      then scan fuel' m size (get_next m curr_blk)
      else Some curr_blk
  end.

Definition search_free_list (fuel : nat) (size : Z) (st : heap)
  : option (Z * heap) :=
  match scan fuel (mem st) size (head st) with
  | None => None
  | Some curr_blk =>
      if curr_blk =? NULL then Some (NULL, st)
      else if can_split_block (mem st) curr_blk size
           then Some (split_block curr_blk size st)
           else Some (curr_blk, st)
  end.

(** [append_to_free_list(blk)] *)
Definition append_to_free_list (blk : Z) (st : heap) : heap :=
  let m1 := set_prev blk (tail st) (mem st) in
  let m2 := set_next (tail st) blk m1 in
  Heap m2 (head st) blk (brk st) (limit st).

Definition expand_free_list (size : Z) (st : heap) : Z * heap :=
  let (block, st1) := get_heap_mem size st in
  if block =? NULL then (NULL, st1)
  else (block, append_to_free_list block st1).

Definition init_heap (size : Z) (st : heap) : Z * heap :=
  let (blk_one, st1) := get_heap_mem size st in
  if blk_one =? NULL then (NULL, st1)
  else (blk_one, with_head (with_tail st1 blk_one) blk_one).

Definition xmalloc (fuel : nat) (size : Z) (st : heap) : option (Z * heap) :=
  let size := ALIGN size in
  if head st =? NULL then
    let (block, st1) := init_heap size st in
    Some (wrap (block + HEADER_SIZE), st1)
  else
    match search_free_list fuel size st with
    | None => None
    | Some (block, st1) =>
        if block =? NULL then
          let (block', st2) := expand_free_list size st1 in
          if block' =? NULL then Some (NULL, st2)
          else Some (wrap (block' + HEADER_SIZE), st2)
        else Some (wrap (block + HEADER_SIZE), st1)
    end.

Definition merge_adjacent_free_blocks (a b : Z) (st : heap) : heap :=
  let m1 := set_size a (wrap (get_size (mem st) a
                              + wrap (get_size (mem st) b + HEADER_SIZE)))
                     (mem st) in
  let m2 := set_next a (get_next m1 b) m1 in
  let m3 := if get_next m2 b =? NULL then m2
            else set_prev (get_next m2 b) a m2 in
  let t := if tail st =? b then a else tail st in
  Heap m3 (head st) t (brk st) (limit st).

(** [get_header(ptr)]: [(struct header* )(ptr) - 1] *)
Definition get_header (ptr : Z) : Z := wrap (ptr - HEADER_SIZE).

Definition xfree (ptr : Z) (st : heap) : heap :=
  if ptr =? NULL then st
  else
    let block := get_header ptr in
    let st1 := with_mem st (set_free block true (mem st)) in
    if negb (get_next (mem st1) block =? NULL)
       && get_free (mem st1) (get_next (mem st1) block)
    then merge_adjacent_free_blocks block (get_next (mem st1) block) st1
    else if negb (get_prev (mem st1) block =? NULL)
            && get_free (mem st1) (get_prev (mem st1) block)
         then merge_adjacent_free_blocks (get_prev (mem st1) block) block st1
         else st1.

(** The loop of [free_list_len].  The count is a natural number; the [int]
    of the source holds it up to [INT_MAX]. *)
Fixpoint free_list_len_from (fuel : nat) (m : gmap Z Z) (tmp : Z)
  : option nat :=
  match fuel with
  | O => None
  | S fuel' =>
      if tmp =? NULL then Some O
      else option_map S (free_list_len_from fuel' m (get_next m tmp))
  end.

Definition free_list_len (fuel : nat) (st : heap) : option nat :=
  free_list_len_from fuel (mem st) (head st).

(** ** Views of the chain used in the statements *)

(** The addresses met when walking [next] from [p] until [NULL]. *)
Fixpoint chain_from (fuel : nat) (m : gmap Z Z) (p : Z) : option (list Z) :=
  match fuel with
  | O => None
  | S fuel' =>
      if p =? NULL then Some []
      else option_map (cons p) (chain_from fuel' m (get_next m p))
  end.

(** [is_chain m p l]: walking [next] from [p] visits exactly [l] and then
    reaches [NULL]. *)
Fixpoint is_chain (m : gmap Z Z) (p : Z) (l : list Z) : bool :=
  match l with
  | [] => p =? NULL
  | b :: l' => (p =? b) && negb (b =? NULL) && is_chain m (get_next m b) l'
  end.

(** The first-fit predicate of the search loop. *)
Definition fits (m : gmap Z Z) (size : Z) (block : Z) : bool :=
  (size <=? get_size m block) && get_free m block.

(** Strictly ascending addresses. *)
Fixpoint ascending (l : list Z) : bool :=
  match l with
  | a :: ((b :: _) as l') => (a <? b) && ascending l'
  | _ => true
  end.

(** Some two list-adjacent blocks are both free. *)
Fixpoint adjacent_free (m : gmap Z Z) (l : list Z) : bool :=
  match l with
  | a :: ((b :: _) as l') =>
      (get_free m a && get_free m b) || adjacent_free m l'
  | _ => false
  end.

(** ** Running a sequence of calls *)

Inductive call : Type :=
| Malloc (size : Z)
| Free (ptr : Z).

Definition run_call (fuel : nat) (c : call) (st : heap) : option (Z * heap) :=
  match c with
  | Malloc size => xmalloc fuel size st
  | Free ptr => Some (NULL, xfree ptr st)
  end.

(** Runs the calls in order and collects the returned pointers. *)
Fixpoint run (fuel : nat) (cs : list call) (st : heap)
  : option (list Z * heap) :=
  match cs with
  | [] => Some ([], st)
  | c :: cs' =>
      match run_call fuel c st with
      | None => None
      | Some (r, st1) =>
          match run fuel cs' st1 with
          | None => None
          | Some (rs, st2) => Some (r :: rs, st2)
          end
      end
  end.

(** What a test sees after a run: the returned pointers, and the chain as
    [(address, size, free)] triples from [head], with [head] and [tail]. *)
Definition block_view (m : gmap Z Z) (p : Z) : Z * Z * bool :=
  (p, get_size m p, get_free m p).

Definition chain_view (fuel : nat) (st : heap) : option (list (Z * Z * bool)) :=
  option_map (map (block_view (mem st))) (chain_from fuel (mem st) (head st)).

Definition outcome (fuel : nat) (cs : list call) (st : heap)
  : option (list Z * option (list (Z * Z * bool)) * Z * Z) :=
  match run fuel cs st with
  | None => None
  | Some (rs, st') => Some (rs, chain_view fuel st', head st', tail st')
  end.

(** The state a run ends in ([st] itself when the fuel runs out). *)
Definition final_state (fuel : nat) (cs : list call) (st : heap) : heap :=
  match run fuel cs st with
  | None => st
  | Some (_, st') => st'
  end.

(** ** Well-placed headers *)

(** A header that lies inside the address space and is not at [NULL]. *)
Definition header_ok (p : Z) : Prop := 0 < p /\ p + HEADER_SIZE <= modulus.

(** Two headers that do not overlap. *)
Definition apart (p q : Z) : Prop :=
  p + HEADER_SIZE <= q \/ q + HEADER_SIZE <= p.

(** A link seen from the header at [p]: [NULL], or a header apart from it. *)
Definition null_or_apart (q p : Z) : Prop :=
  q = NULL \/ (header_ok q /\ apart p q).

(** ** Describing a chain by its blocks *)

Definition block_addr (b : Z * Z * bool) : Z := fst (fst b).

(** The blocks [bs], each given as [(address, size, free)], are linked in
    this order, the first one having [pv] as its [prev]. *)
Fixpoint blocks_at (m : gmap Z Z) (pv : Z) (bs : list (Z * Z * bool))
  : Prop :=
  match bs with
  | [] => True
  | (p, sz, fr) :: rest =>
      get_size m p = sz /\ get_free m p = fr /\ get_prev m p = pv /\
      get_next m p = match rest with [] => NULL | b :: _ => block_addr b end /\
      blocks_at m p rest
  end.

Definition describes (st : heap) (bs : list (Z * Z * bool)) : Prop :=
  head st = match bs with [] => NULL | b :: _ => block_addr b end /\
  tail st = List.last (map block_addr bs) NULL /\
  blocks_at (mem st) NULL bs.

(** ** Concrete processes used as inputs *)

(** A process whose break starts at 4096 and may grow up to 65536. *)
Definition roomy : heap := fresh ∅ 4096 65536.

(** A process whose break cannot move at all. *)
Definition exhausted : heap := fresh ∅ 4096 4096.

(** A process with room for exactly one 16-byte block. *)
Definition one_block_room : heap := fresh ∅ 4096 4144.


(** Three allocations, then the first block is released. *)
Definition first_released : list call :=
  [Malloc 16; Malloc 16; Malloc 1024; Free 4128].

(** ... and 16 bytes are requested again: the released block fits exactly. *)
Definition exact_refit : list call := first_released ++ [Malloc 16].

(** The state reached by [exact_refit]. *)
Definition after_exact_refit : heap := final_state 8 exact_refit roomy.

(** The allocations of the self-test of [main], released in the order
    first, third, second. *)
Definition release_middle_last : list call :=
  [Malloc 10; Malloc 20; Malloc 30; Free 4128; Free 4232; Free 4176].

(** The self-test of [main]: three allocations, three releases in order,
    and a fourth allocation. *)
Definition self_test : list call :=
  [Malloc 10; Malloc 20; Malloc 30; Free 4128; Free 4176; Free 4232;
   Malloc 10].

(** Three blocks of which the first and the third have been released. *)
Definition outer_released : heap :=
  final_state 8 [Malloc 10; Malloc 20; Malloc 30; Free 4128; Free 4232] roomy.

(** One 16-byte block in a process that cannot grow any further. *)
Definition one_block_full : heap := final_state 2 [Malloc 10] one_block_room.

(** The layout a split needs to leave every header intact: the found block
    [b], the new header and the successor of [b] (if any) lie inside the
    address space and do not overlap. *)
Definition split_layout (m : gmap Z Z) (b size : Z) : Prop :=
  header_ok b /\ header_ok (rhs_address b size)
  /\ apart b (rhs_address b size)
  /\ (get_next m b = NULL
      \/ (header_ok (get_next m b) /\ apart b (get_next m b)
          /\ apart (rhs_address b size) (get_next m b))).

(** ** Walking the chain *)

(** The block reached from [p] after [k] steps along [next]. *)
Fixpoint nth_next (m : gmap Z Z) (p : Z) (k : nat) : Z :=
  match k with
  | O => p
  | S k' => nth_next m (get_next m p) k'
  end.
(** ** Chains as lists of blocks *)

(** Addresses of a list of [(address, size, free)] blocks. *)
Definition addrs (bs : list (Z * Z * bool)) : list Z := map block_addr bs.

(** Address of the first block of [bs], or [d] when there is none. *)
Definition first_addr (bs : list (Z * Z * bool)) (d : Z) : Z :=
  match bs with [] => d | b :: _ => block_addr b end.

(** Address of the last block of [bs], or [d] when there is none. *)
Definition last_addr (bs : list (Z * Z * bool)) (d : Z) : Z :=
  List.last (addrs bs) d.

(** [seg m pv bs nx]: the blocks [bs] are linked one after the other in
    [m]; the first has [pv] as its [prev], the last has [nx] as its
    [next]. *)
Fixpoint seg (m : gmap Z Z) (pv : Z) (bs : list (Z * Z * bool)) (nx : Z)
  : Prop :=
  match bs with
  | [] => True
  | (p, sz, fr) :: rest =>
      get_size m p = sz /\ get_free m p = fr /\ get_prev m p = pv /\
      get_next m p = first_addr rest nx /\
      seg m p rest nx
  end.

(** No two of the headers at [ps] overlap. *)
Fixpoint all_apart (ps : list Z) : Prop :=
  match ps with
  | [] => True
  | p :: rest => Forall (apart p) rest /\ all_apart rest
  end.

(** Every header lies inside the address space, away from [NULL], and no
    two overlap. *)
Definition well_placed (bs : list (Z * Z * bool)) : Prop :=
  Forall header_ok (addrs bs) /\ all_apart (addrs bs).

(** The size of a block that has absorbed its right neighbour:
    [a->size += b->size + HEADER_SIZE]. *)
Definition merged_size (sa sb : Z) : Z := wrap (sa + wrap (sb + HEADER_SIZE)).

(** The release of block [(p, sz, _)] on the list of blocks, the blocks
    before it given in reverse order: absorb a free right neighbour, else
    be absorbed by a free left neighbour, else only turn free. *)
Definition release_in (rpre : list (Z * Z * bool)) (p sz : Z)
    (post : list (Z * Z * bool)) : list (Z * Z * bool) :=
  match post with
  | (n, sn, true) :: post' =>
      rev rpre ++ (p, merged_size sz sn, true) :: post'
  | _ =>
      match rpre with
      | (q, sq, true) :: rpre' =>
          rev rpre' ++ (q, merged_size sq sz, true) :: post
      | _ => rev rpre ++ (p, sz, true) :: post
      end
  end.
(** The first-fit test on a described block. *)
Definition block_fits (size : Z) (b : Z * Z * bool) : bool :=
  (size <=? snd (fst b)) && snd b.

(** The block an allocation of [size] bytes hands out: the first block of
    the list that fits, or a new block at [new] when none does. *)
Fixpoint chosen_block (size new : Z) (bs : list (Z * Z * bool)) : Z :=
  match bs with
  | [] => new
  | b :: rest =>
      if block_fits size b then block_addr b else chosen_block size new rest
  end.

(** The allocation of [size] bytes on the list of blocks, with the break at
    [new]: the first block that fits is split when it passes the split test
    and left as it is otherwise; when no block fits, a block is appended at
    the break. *)
Fixpoint alloc_blocks (size new : Z) (bs : list (Z * Z * bool))
  : list (Z * Z * bool) :=
  match bs with
  | [] => [(new, size, false)]
  | (p, sz, fr) :: rest =>
      if block_fits size (p, sz, fr) then
        if size <? wrap (sz + HEADER_SIZE)
        then (p, size, false)
             :: (rhs_address p size, wrap (sz - size - HEADER_SIZE), true)
             :: rest
        else (p, sz, fr) :: rest
      else (p, sz, fr) :: alloc_blocks size new rest
  end.
(** The three blocks of the self-test, all released again. *)
Definition merged_back : heap :=
  final_state 8 [Malloc 10; Malloc 20; Malloc 30;
                 Free 4128; Free 4176; Free 4232] roomy.

(** ** The self-test of [main] *)

(** A step of the test: [None] when a loop ran out of fuel, [Some None]
    when an [assert] failed, and otherwise a value and the next state. *)
Definition step (A : Type) : Type := heap -> option (option (A * heap)).

Definition ret {A : Type} (a : A) : step A := fun st => Some (Some (a, st)).

Definition bind {A B : Type} (c : step A) (k : A -> step B) : step B :=
  fun st =>
    match c st with
    | None => None
    | Some None => Some None
    | Some (Some (a, st1)) => k a st1
    end.

Declare Scope test_scope.
Delimit Scope test_scope with test.
Notation "x <- c ;; k" := (bind c (fun x => k))
  (at level 100, c at next level, right associativity) : test_scope.
Notation "c ;; k" := (bind c (fun _ => k))
  (at level 100, right associativity) : test_scope.

(** [assert(e)] for an expression [e] over the current memory and globals. *)
Definition assert (e : heap -> bool) : step unit :=
  fun st => if e st then Some (Some (tt, st)) else Some None.

Definition call_xmalloc (fuel : nat) (size : Z) : step Z :=
  fun st =>
    match xmalloc fuel size st with
    | None => None
    | Some r => Some (Some r)
    end.

Definition call_xfree (ptr : Z) : step unit :=
  fun st => Some (Some (tt, xfree ptr st)).

(** [assert(free_list_len() == n)] *)
Definition assert_len (fuel : nat) (n : nat) : step unit :=
  fun st =>
    match free_list_len fuel st with
    | None => None
    | Some k => if Nat.eqb k n then Some (Some (tt, st)) else Some None
    end.

Definition size_is (h v : Z) : heap -> bool :=
  fun st => get_size (mem st) h =? v.
Definition free_is (h : Z) (b : bool) : heap -> bool :=
  fun st => Bool.eqb (get_free (mem st) h) b.

(** [main], statement by statement; its value is the exit status.  The
    closing [puts] only prints and is left out. *)
Definition main (fuel : nat) : step Z :=
  (a1 <- call_xmalloc fuel 10 ;;
  let a1h := get_header a1 in
  assert (size_is a1h (ALIGN 10)) ;;
  assert (free_is a1h false) ;;
  a2 <- call_xmalloc fuel 20 ;;
  let a2h := get_header a2 in
  assert (size_is a2h (ALIGN 20)) ;;
  assert (free_is a2h false) ;;
  a3 <- call_xmalloc fuel 30 ;;
  let a3h := get_header a3 in
  assert (size_is a3h (ALIGN 30)) ;;
  assert (free_is a3h false) ;;
  assert_len fuel 3 ;;
  call_xfree a1 ;;
  assert (free_is a1h true) ;;
  call_xfree a2 ;;
  assert (free_is a2h true) ;;
  assert (size_is a1h (wrap (ALIGN 10 + ALIGN 20 + ALIGN HEADER_SIZE))) ;;
  assert_len fuel 2 ;;
  call_xfree a3 ;;
  assert (free_is a3h true) ;;
  assert (size_is a1h (wrap (ALIGN 10 + ALIGN 20 + ALIGN 30
                             + ALIGN HEADER_SIZE + ALIGN HEADER_SIZE))) ;;
  assert_len fuel 1 ;;
  assert (fun st => a1h =? head st) ;;
  assert (fun st => a1h =? tail st) ;;
  a1' <- call_xmalloc fuel 10 ;;
  let a1h' := get_header a1' in
  assert (size_is a1h' (ALIGN 10)) ;;
  assert (free_is a1h' false) ;;
  assert (fun st => a1h' =? head st) ;;
  a2h' <- (fun st => Some (Some (get_next (mem st) a1h', st))) ;;
  assert (fun st => a2h' =? tail st) ;;
  assert (free_is a2h' true) ;;
  assert_len fuel 2 ;;
  ret 0)%test.

(** ** A split that lands on another block *)

(** Three allocations, the first released and 8 bytes requested again: the
    header split off the block at 4096 is placed at [4096 + 32 + 32 * 8],
    which is the header of the third block. *)
Definition split_onto_third : list call :=
  [Malloc 64; Malloc 160; Malloc 8; Free 4128; Malloc 8].

(** The state these five calls leave: from 4096 the chain runs to 4384,
    to 4192 and back to 4384. *)
Definition looping : heap := final_state 8 split_onto_third roomy.

(** ** Where the model follows the machine *)

(** [free_list_len] counts in [int]; the model counts in [nat], which is the
    same up to [INT_MAX]. *)
Definition INT_MAX : Z := 2 ^ 31 - 1.

(** [sbrk] takes an [intptr_t]: it reads a request of [2^63] or more as a
    negative increment.  The model's [sbrk] reads every request as
    unsigned, so it follows the system for the calls below only. *)
Definition INTPTR_MAX : Z := 2 ^ 63 - 1.

Definition nonnegative_increment (c : call) : Prop :=
  match c with
  | Malloc size => wrap (HEADER_SIZE + ALIGN size) <= INTPTR_MAX
  | Free _ => True
  end.

(** The headers of [bs] lie in the memory obtained from [sbrk]: from the
    first header of the chain, which [init_heap] put at the first break, up
    to the break [hi].  Stores to such headers are stores the process may
    carry out. *)
Definition in_heap (hi : Z) (bs : list (Z * Z * bool)) : Prop :=
  Forall (fun c => first_addr bs NULL <= c /\ c + HEADER_SIZE <= hi)
         (addrs bs).

(** The break after an allocation of [size] bytes on the blocks [bs]: it
    moves only when no block fits. *)
Definition alloc_break (size new : Z) (bs : list (Z * Z * bool)) : Z :=
  if forallb (fun b => negb (block_fits size b)) bs
  then new + wrap (HEADER_SIZE + size)
  else new.

(** One block of 600 bytes, released. *)
Definition one_wide_block : heap :=
  final_state 8 [Malloc 600; Free 4128] roomy.

(** A block of 600 bytes between two blocks of 8 bytes. *)
Definition wide_middle : heap :=
  final_state 8 [Malloc 8; Malloc 600; Malloc 8] roomy.

(** * Basic facts *)

Lemma modulus_eq : modulus = 18446744073709551616.
Proof. reflexivity. Qed.

Lemma wrap_small z : 0 <= z < modulus -> wrap z = z.
Proof. intros H. unfold wrap. now apply Z.mod_small. Qed.

Lemma wrap_range z : 0 <= wrap z < modulus.
Proof. unfold wrap. apply Z.mod_pos_bound. reflexivity. Qed.

Lemma load_store_eq m a b v : a = b -> load (store m a v) b = v.
Proof. intros ->. unfold load, store. apply lookup_total_insert_eq. Qed.

Lemma load_store_ne m a b v : a <> b -> load (store m a v) b = load m b.
Proof. intros H. unfold load, store. now apply lookup_total_insert_ne. Qed.

(** * The search loop *)

Section Search.
Variable m : gmap Z Z.
Variable size : Z.

Lemma scan_stops_at_null fuel : scan (S fuel) m size NULL = Some NULL.
Proof. reflexivity. Qed.

Lemma scan_step fuel p :
  p <> NULL -> fits m size p = false ->
  scan (S fuel) m size p = scan fuel m size (get_next m p).
Proof.
  intros Hp Hf. cbn [scan]. fold (fits m size p). rewrite Hf.
  apply Z.eqb_neq in Hp. now rewrite Hp.
Qed.

Lemma scan_hit fuel p :
  fits m size p = true -> scan (S fuel) m size p = Some p.
Proof.
  intros Hf. cbn [scan]. fold (fits m size p). rewrite Hf.
  now rewrite andb_false_r.
Qed.

Lemma scan_chain l : forall p fuel,
  is_chain m p l = true -> (length l < fuel)%nat ->
  scan fuel m size p =
  Some (match List.find (fits m size) l with
        | Some b => b
        | None => NULL
        end).
Proof.
  induction l as [|b l IH]; intros p fuel Hc Hlen.
  - cbn in Hc. apply Z.eqb_eq in Hc. subst p.
    destruct fuel; [cbn in Hlen; lia|]. reflexivity.
  - cbn [is_chain] in Hc.
    apply andb_true_iff in Hc as [Hc Hrest].
    apply andb_true_iff in Hc as [Hpb Hnn].
    apply Z.eqb_eq in Hpb. subst p.
    apply negb_true_iff, Z.eqb_neq in Hnn.
    destruct fuel; [cbn in Hlen; lia|].
    cbn [List.find]. destruct (fits m size b) eqn:Hf.
    + now apply scan_hit.
    + rewrite scan_step by assumption.
      apply IH; [assumption | cbn in Hlen; lia].
Qed.
End Search.

(** * The search on a chain that a split has closed into a loop *)

Lemma scan_loops (m : gmap Z Z) (size p q : Z) :
  p <> NULL -> q <> NULL ->
  fits m size p = false -> fits m size q = false ->
  get_next m p = q -> get_next m q = p ->
  forall fuel, scan fuel m size p = None /\ scan fuel m size q = None.
Proof.
  intros Hp Hq Hfp Hfq Hpq Hqp.
  induction fuel as [|fuel [IHp IHq]]; [now split|].
  rewrite !scan_step by assumption. rewrite Hpq, Hqp. now split.
Qed.

(** C8: the search does not report "not found" on every chain the calls
    can build.  After [split_onto_third] the chain runs from 4096 to 4384,
    to 4192 and back to 4384; none of the three blocks is free with 32
    bytes, and the search for 32 bytes never leaves its loop, so [xmalloc]
    never gets to grow the heap. *)
Theorem search_never_leaves_loop :
  run 8 split_onto_third roomy
  = Some ([4128; 4224; 4416; NULL; 4128], looping)
  /\ head looping = 4096
  /\ get_next (mem looping) 4096 = 4384
  /\ get_next (mem looping) 4384 = 4192
  /\ get_next (mem looping) 4192 = 4384
  /\ fits (mem looping) 32 4096 = false
  /\ fits (mem looping) 32 4384 = false
  /\ fits (mem looping) 32 4192 = false
  /\ (forall fuel, search_free_list fuel 32 looping = None)
  /\ (forall fuel, xmalloc fuel 32 looping = None).
Proof.
  assert (Hrun : run 8 split_onto_third roomy
                 = Some ([4128; 4224; 4416; NULL; 4128], looping))
    by (vm_compute; reflexivity).
  assert (Hh : head looping = 4096) by (vm_compute; reflexivity).
  assert (N1 : get_next (mem looping) 4096 = 4384) by (vm_compute; reflexivity).
  assert (N2 : get_next (mem looping) 4384 = 4192) by (vm_compute; reflexivity).
  assert (N3 : get_next (mem looping) 4192 = 4384) by (vm_compute; reflexivity).
  assert (F1 : fits (mem looping) 32 4096 = false) by (vm_compute; reflexivity).
  assert (F2 : fits (mem looping) 32 4384 = false) by (vm_compute; reflexivity).
  assert (F3 : fits (mem looping) 32 4192 = false) by (vm_compute; reflexivity).
  assert (Hscan : forall fuel, scan fuel (mem looping) 32 (head looping) = None).
  { intros [|fuel]; [reflexivity|]. rewrite Hh.
    rewrite scan_step by (try assumption; discriminate). rewrite N1.
    apply (scan_loops (mem looping) 32 4384 4192); try assumption;
      discriminate. }
  assert (Hsearch : forall fuel, search_free_list fuel 32 looping = None).
  { intros fuel. unfold search_free_list. now rewrite Hscan. }
  repeat (split; [assumption|]).
  intros fuel. unfold xmalloc.
  change (ALIGN 32) with 32. rewrite Hsearch, Hh. reflexivity.
Qed.

(** * The search on a chain that ends *)

(** X15: on a chain that reaches [NULL] after finitely many blocks,
    [search_free_list] stops at the first block in chain order that is free
    and at least [size] bytes large, and returns it: split, when it passes
    the split test, and as it is otherwise.  The header a split writes, at
    [rhs_address], is taken to lie in the heap, between the block and the
    break.  When no block of the chain qualifies the search returns [NULL]
    and leaves the state as it was. *)
Theorem search_returns_first_fit (st : heap) (size : Z) (l : list Z)
    (fuel : nat) :
  is_chain (mem st) (head st) l = true ->
  (length l < fuel)%nat ->
  (forall l1 b l2,
     l = l1 ++ b :: l2 ->
     (forall c, In c l1 -> fits (mem st) size c = false) ->
     fits (mem st) size b = true ->
     (can_split_block (mem st) b size = true ->
      b <= rhs_address b size
      /\ rhs_address b size + HEADER_SIZE <= brk st) ->
     search_free_list fuel size st
     = Some (if can_split_block (mem st) b size
             then split_block b size st else (b, st))
     /\ fst (split_block b size st) = b)
  /\ ((forall c, In c l -> fits (mem st) size c = false) ->
      search_free_list fuel size st = Some (NULL, st)).
Proof.
  intros Hc Hlen.
  pose proof (scan_chain (mem st) size l (head st) fuel Hc Hlen) as Hscan.
  assert (Hnn : forall c, In c l -> c <> NULL).
  { clear Hscan Hlen. revert Hc. generalize (head st).
    induction l as [|c l IH]; intros p Hc d Hin; [contradiction|].
    cbn [is_chain] in Hc.
    apply andb_true_iff in Hc as [Hc Hrest].
    apply andb_true_iff in Hc as [_ Hnn].
    apply negb_true_iff, Z.eqb_neq in Hnn.
    destruct Hin as [->|Hin]; [assumption|]. now apply (IH _ Hrest). }
  split.
  - intros l1 b l2 -> Hl1 Hb _. split; [|reflexivity].
    assert (Hfind : List.find (fits (mem st) size) (l1 ++ b :: l2) = Some b).
    { clear Hscan Hc Hlen Hnn. induction l1 as [|c l1 IH]; cbn [app List.find].
      - now rewrite Hb.
      - rewrite (Hl1 c) by now left.
        apply IH. intros d Hd. apply Hl1. now right. }
    rewrite Hfind in Hscan. unfold search_free_list. rewrite Hscan.
    assert (Hbn : b <> NULL) by (apply Hnn, in_or_app; right; now left).
    apply Z.eqb_neq in Hbn. rewrite Hbn.
    now destruct (can_split_block (mem st) b size).
  - intros Hnone.
    assert (Hfind : List.find (fits (mem st) size) l = None).
    { clear Hscan Hc Hlen Hnn. induction l as [|c l IH]; [reflexivity|].
      cbn [List.find]. rewrite (Hnone c) by now left.
      apply IH. intros d Hd. apply Hnone. now right. }
    rewrite Hfind in Hscan. unfold search_free_list. now rewrite Hscan.
Qed.

(** The search on the chain of [first_released] for 16 bytes: the first
    block is free and large enough, and it passes the split test; the new
    header goes to 4640, below the break at 5248. *)
Lemma search_returns_first_fit_witness :
  is_chain (mem (final_state 8 first_released roomy))
           (head (final_state 8 first_released roomy))
           [4096; 4144; 4192] = true
  /\ (length [4096; 4144; 4192] < 4)%nat
  /\ fits (mem (final_state 8 first_released roomy)) 16 4096 = true
  /\ 4096 <= rhs_address 4096 16
  /\ rhs_address 4096 16 + HEADER_SIZE
     <= brk (final_state 8 first_released roomy)
  /\ search_free_list 4 16 (final_state 8 first_released roomy)
     = Some (if can_split_block (mem (final_state 8 first_released roomy))
                                4096 16
             then split_block 4096 16 (final_state 8 first_released roomy)
             else (4096, final_state 8 first_released roomy)).
Proof.
  assert (H1 : is_chain (mem (final_state 8 first_released roomy))
                        (head (final_state 8 first_released roomy))
                        [4096; 4144; 4192] = true)
    by (vm_compute; reflexivity).
  assert (H2 : (length [4096; 4144; 4192] < 4)%nat) by (simpl; lia).
  assert (H3 : fits (mem (final_state 8 first_released roomy)) 16 4096
               = true) by (vm_compute; reflexivity).
  assert (H4 : 4096 <= rhs_address 4096 16) by (vm_compute; discriminate).
  assert (H5 : rhs_address 4096 16 + HEADER_SIZE
               <= brk (final_state 8 first_released roomy))
    by (vm_compute; discriminate).
  repeat (split; [assumption|]).
  destruct (search_returns_first_fit
              (final_state 8 first_released roomy) 16
              [4096; 4144; 4192] 4 H1 H2) as (Hfound & _).
  apply (Hfound [] 4096 [4144; 4192]).
  - reflexivity.
  - intros c [].
  - exact H3.
  - intros _. split; [exact H4 | exact H5].
Defined.

(** * Growth and its failure *)

Lemma sbrk_refused n st :
  limit st < brk st + n -> sbrk n st = (SBRK_FAILED, st).
Proof.
  intros H. unfold sbrk.
  destruct (Z.leb_spec (brk st + n) (limit st)); [lia | reflexivity].
Qed.

Lemma get_heap_mem_refused size st :
  limit st < brk st + wrap (HEADER_SIZE + size) ->
  get_heap_mem size st = (NULL, st).
Proof.
  intros H. unfold get_heap_mem, get_raw_heap_mem.
  rewrite sbrk_refused by assumption. reflexivity.
Qed.

Lemma xmalloc_empty_refused fuel size st :
  head st = NULL ->
  limit st < brk st + wrap (HEADER_SIZE + ALIGN size) ->
  xmalloc fuel size st = Some (HEADER_SIZE, st).
Proof.
  intros Hh H. unfold xmalloc, init_heap.
  rewrite Hh, get_heap_mem_refused by assumption. reflexivity.
Qed.

Lemma xmalloc_nonempty_refused fuel size st :
  head st <> NULL ->
  scan fuel (mem st) (ALIGN size) (head st) = Some NULL ->
  limit st < brk st + wrap (HEADER_SIZE + ALIGN size) ->
  xmalloc fuel size st = Some (NULL, st).
Proof.
  intros Hh Hs H. unfold xmalloc, search_free_list, expand_free_list.
  apply Z.eqb_neq in Hh. rewrite Hh, Hs. cbn [Z.eqb NULL].
  rewrite get_heap_mem_refused by assumption. reflexivity.
Qed.

(** C9: when no block of the chain fits the request (in particular when
    the chain is empty) and the system refuses the extension, the call
    returns with the allocator state exactly as it was. *)
Theorem refused_growth_leaves_state (fuel : nat) (size : Z) (st : heap)
    (l : list Z) :
  is_chain (mem st) (head st) l = true ->
  (length l < fuel)%nat ->
  List.find (fits (mem st) (ALIGN size)) l = None ->
  limit st < brk st + wrap (HEADER_SIZE + ALIGN size) ->
  exists r, xmalloc fuel size st = Some (r, st)
            /\ (r = NULL \/ (head st = NULL /\ r = HEADER_SIZE)).
Proof.
  intros Hc Hlen Hnone Href.
  destruct (Z.eq_dec (head st) NULL) as [Hh|Hh].
  - exists HEADER_SIZE. split; [now apply xmalloc_empty_refused|].
    right. now split.
  - exists NULL. split; [|now left].
    apply xmalloc_nonempty_refused; try assumption.
    rewrite (scan_chain _ _ _ _ _ Hc Hlen). now rewrite Hnone.
Qed.

(** * Symbolic execution of header accesses *)

Lemma SBRK_FAILED_eq : SBRK_FAILED = 18446744073709551615.
Proof. reflexivity. Qed.

Lemma low_byte_set_low_byte_small w b :
  0 <= b < 256 -> low_byte (set_low_byte w b) = b.
Proof.
  intros H. unfold low_byte, set_low_byte.
  rewrite Z.add_comm, Z.mul_comm, Z.mod_add by lia. now apply Z.mod_small.
Qed.

Lemma set_low_byte_twice w a b :
  0 <= a < 256 -> set_low_byte (set_low_byte w a) b = set_low_byte w b.
Proof.
  intros H. unfold set_low_byte. f_equal. f_equal.
  rewrite Z.add_comm, Z.mul_comm, Z.div_add by lia.
  rewrite (Z.div_small a) by lia. reflexivity.
Qed.

Ltac zlia :=
  pose proof modulus_eq;
  unfold HEADER_SIZE, NULL, ALIGNMENT,
         OFF_SIZE, OFF_FREE, OFF_NEXT, OFF_PREV in *;
  lia.

Ltac unfold_fields :=
  unfold init_header, get_size, get_free, get_next, get_prev,
         set_size, set_free, set_next, set_prev, field,
         OFF_SIZE, OFF_FREE, OFF_NEXT, OFF_PREV, HEADER_SIZE, NULL.

Ltac wrap_norm :=
  repeat match goal with
         | |- context [wrap ?z] => rewrite (wrap_small z) by zlia
         end.

Ltac mem_norm :=
  repeat match goal with
         | |- context [load (store ?m ?a ?v) ?b] =>
             first [ rewrite (load_store_eq m a b v) by zlia
                   | rewrite (load_store_ne m a b v) by zlia ]
         | |- context [low_byte (set_low_byte ?w ?b)] =>
             rewrite (low_byte_set_low_byte_small w b) by lia
         | |- context [set_low_byte (set_low_byte ?w ?a) ?b] =>
             rewrite (set_low_byte_twice w a b) by lia
         end.

Ltac bool_norm :=
  repeat match goal with
         | |- context [?a <=? ?b] =>
             first [ rewrite (proj2 (Z.leb_le a b)) by zlia
                   | rewrite (proj2 (Z.leb_gt a b)) by zlia ]
         | |- context [?a <? ?b] =>
             first [ rewrite (proj2 (Z.ltb_lt a b)) by zlia
                   | rewrite (proj2 (Z.ltb_ge a b)) by zlia ]
         | |- context [?a =? ?b] =>
             first [ rewrite (proj2 (Z.eqb_eq a b)) by zlia
                   | rewrite (proj2 (Z.eqb_neq a b)) by zlia ]
         end.

Ltac proj_norm :=
  cbn [mem head tail brk limit fresh with_mem with_head with_tail with_brk
       andb orb negb fst snd option_map Z.b2z
       scan free_list_len_from chain_from run run_call].

Ltac align_norm :=
  repeat match goal with
         | |- context [ALIGN ?c] =>
             let v := eval vm_compute in (ALIGN c) in
             change (ALIGN c) with v
         end.

Ltac unfold_code :=
  unfold xmalloc, init_heap, search_free_list, expand_free_list,
         append_to_free_list, get_heap_mem, get_raw_heap_mem, sbrk,
         can_split_block, split_block, rhs_address, rhs_size,
         merge_adjacent_free_blocks, get_header, free_list_len;
  rewrite ?SBRK_FAILED_eq.

Ltac exec :=
  repeat (progress (proj_norm; unfold_code; unfold_fields; align_norm;
                    wrap_norm; mem_norm; bool_norm)).

Ltac same_state :=
  proj_norm; repeat first [reflexivity | zlia | progress f_equal].

(** * The three ways a release ends *)

Section Release.
Variable ptr : Z.
Variable st : heap.
Hypothesis Hptr : ptr <> NULL.

Let block := get_header ptr.
Let m1 := set_free block true (mem st).

Lemma xfree_right :
  get_next m1 block <> NULL ->
  get_free m1 (get_next m1 block) = true ->
  xfree ptr st =
  merge_adjacent_free_blocks block (get_next m1 block) (with_mem st m1).
Proof.
  intros Hn Hf. unfold xfree. apply Z.eqb_neq in Hptr, Hn.
  rewrite Hptr. cbn [mem with_mem]. fold block. fold m1.
  now rewrite Hn, Hf.
Qed.

Lemma xfree_left :
  get_next m1 block = NULL \/ get_free m1 (get_next m1 block) = false ->
  get_prev m1 block <> NULL ->
  get_free m1 (get_prev m1 block) = true ->
  xfree ptr st =
  merge_adjacent_free_blocks (get_prev m1 block) block (with_mem st m1).
Proof.
  intros Hn Hp Hf. unfold xfree. apply Z.eqb_neq in Hptr, Hp.
  rewrite Hptr. cbn [mem with_mem]. fold block. fold m1.
  rewrite Hp, Hf.
  destruct Hn as [Hn|Hn]; [apply Z.eqb_eq in Hn|]; rewrite Hn;
    cbn [negb andb]; rewrite ?andb_false_r; reflexivity.
Qed.

Lemma xfree_neither :
  get_next m1 block = NULL \/ get_free m1 (get_next m1 block) = false ->
  get_prev m1 block = NULL \/ get_free m1 (get_prev m1 block) = false ->
  xfree ptr st = with_mem st m1.
Proof.
  intros Hn Hp. unfold xfree. apply Z.eqb_neq in Hptr.
  rewrite Hptr. cbn [mem with_mem]. fold block. fold m1.
  destruct Hn as [Hn|Hn]; [apply Z.eqb_eq in Hn|]; rewrite Hn;
    cbn [negb andb]; rewrite ?andb_false_r;
    (destruct Hp as [Hp|Hp]; [apply Z.eqb_eq in Hp|]; rewrite Hp;
     cbn [negb andb]; rewrite ?andb_false_r; reflexivity).
Qed.
End Release.

(** * The round trip of the self-test, on any process with enough room *)

Ltac open_state st H :=
  destruct st as [?m ?h ?t ?b ?l];
  unfold describes in H;
  cbn [blocks_at block_addr fst snd map List.last mem head tail brk limit] in *;
  destruct_and?; subst;
  unfold get_size, get_free, get_next, get_prev, field,
         OFF_SIZE, OFF_FREE, OFF_NEXT, OFF_PREV, NULL in *;
  repeat match goal with
         | H : context [wrap ?z] |- _ => rewrite (wrap_small z) in H by zlia
         end.

Ltac hyp_loads :=
  repeat match goal with
         | H : context [load ?m ?b] |- context [load ?m ?a] =>
             lazymatch a with
             | b => fail
             | _ => replace a with b by zlia
             end
         end;
  repeat match goal with
         | H : ?lhs = _ |- context [?lhs] => rewrite H
         end.

Ltac exec' := repeat (progress (exec; hyp_loads)).

Ltac show_state :=
  unfold describes;
  cbn [blocks_at block_addr fst snd map List.last mem head tail brk limit];
  repeat split; exec'; try reflexivity; try zlia.

Section RoundTrip.
Variables base lim : Z.
Hypothesis Hbase : 0 < base.
Hypothesis Hroom : base + 168 <= lim.
Hypothesis Hlim : lim < modulus.

Lemma rt_malloc1 m fuel :
  exists st,
    xmalloc fuel 10 (fresh m base lim) = Some (base + 32, st)
    /\ brk st = base + 48 /\ limit st = lim
    /\ describes st [(base, 16, false)].
Proof.
  eexists. split; [exec; reflexivity|].
  split; [|split]; [same_state..|]. show_state.
Qed.

Lemma rt_malloc2 st fuel :
  brk st = base + 48 -> limit st = lim ->
  describes st [(base, 16, false)] ->
  exists st',
    xmalloc (S (S fuel)) 20 st = Some (base + 80, st')
    /\ brk st' = base + 104 /\ limit st' = lim
    /\ describes st' [(base, 16, false); (base + 48, 24, false)].
Proof.
  intros Hb Hl Hd. open_state st Hd.
  eexists. split; [exec'; same_state|].
  split; [|split]; [same_state..|]. show_state.
Qed.

Lemma rt_malloc3 st fuel :
  brk st = base + 104 -> limit st = lim ->
  describes st [(base, 16, false); (base + 48, 24, false)] ->
  exists st',
    xmalloc (S (S (S fuel))) 30 st = Some (base + 136, st')
    /\ describes st' [(base, 16, false); (base + 48, 24, false);
                       (base + 104, 32, false)].
Proof.
  intros Hb Hl Hd. open_state st Hd.
  eexists. split; [exec'; same_state|]. show_state.
Qed.

Lemma rt_free1 st :
  describes st [(base, 16, false); (base + 48, 24, false);
                (base + 104, 32, false)] ->
  describes (xfree (base + 32) st)
            [(base, 16, true); (base + 48, 24, false);
             (base + 104, 32, false)].
Proof.
  intros Hd. open_state st Hd.
  rewrite xfree_neither; [|zlia|right|left];
    [show_state | exec'; reflexivity..].
Qed.

Lemma rt_free2 st :
  describes st [(base, 16, true); (base + 48, 24, false);
                (base + 104, 32, false)] ->
  describes (xfree (base + 80) st)
            [(base, 72, true); (base + 104, 32, false)].
Proof.
  intros Hd. open_state st Hd.
  rewrite xfree_left; [|zlia|right| |];
    [show_state | exec'; try reflexivity; try zlia ..].
Qed.

Lemma rt_free3 st :
  describes st [(base, 72, true); (base + 104, 32, false)] ->
  describes (xfree (base + 136) st) [(base, 136, true)].
Proof.
  intros Hd. open_state st Hd.
  rewrite xfree_left; [|zlia|left| |];
    [show_state | exec'; try reflexivity; try zlia ..].
Qed.
End RoundTrip.

(** The length query on a described chain. *)
Lemma free_list_len_blocks m : forall bs pv fuel,
  blocks_at m pv bs ->
  Forall (fun b => block_addr b <> NULL) bs ->
  (length bs < fuel)%nat ->
  free_list_len_from fuel m
    (match bs with [] => NULL | b :: _ => block_addr b end)
  = Some (length bs).
Proof.
  induction bs as [|[[p sz] fr] rest IH]; intros pv fuel Hb Hnn Hlen.
  - destruct fuel; [cbn in Hlen; lia | reflexivity].
  - destruct fuel; [cbn in Hlen; lia|].
    cbn [blocks_at] in Hb. destruct Hb as (_ & _ & _ & Hnext & Hrest).
    inversion Hnn as [|? ? Hp Hnn']; subst. cbn [block_addr fst] in *.
    cbn [free_list_len_from]. apply Z.eqb_neq in Hp. rewrite Hp, Hnext.
    rewrite (IH p fuel Hrest Hnn') by (cbn in Hlen; lia). reflexivity.
Qed.

Lemma free_list_len_describes st bs fuel :
  describes st bs ->
  Forall (fun b => block_addr b <> NULL) bs ->
  (length bs < fuel)%nat ->
  free_list_len fuel st = Some (length bs).
Proof.
  intros (Hh & _ & Hb) Hnn Hlen. unfold free_list_len. rewrite Hh.
  now apply (free_list_len_blocks (mem st) bs NULL).
Qed.

(** C6: from an empty chain, allocating 10, 20 and 30 bytes gives three
    blocks; releasing the first and then the second leaves two blocks, the
    first of size [ALIGN 10 + ALIGN 20 + HEADER_SIZE]; releasing the third
    leaves one block of size
    [ALIGN 10 + ALIGN 20 + ALIGN 30 + 2 * HEADER_SIZE] that is both [head]
    and [tail]. *)
Theorem merge_round_trip (m : gmap Z Z) (base lim : Z) (fuel : nat) :
  0 < base -> base + 168 <= lim -> lim < modulus -> (3 < fuel)%nat ->
  exists a1 a2 a3 s3,
    run fuel [Malloc 10; Malloc 20; Malloc 30] (fresh m base lim)
      = Some ([a1; a2; a3], s3)
    /\ free_list_len fuel s3 = Some 3%nat
    /\ (let s5 := xfree a2 (xfree a1 s3) in
        free_list_len fuel s5 = Some 2%nat
        /\ head s5 = get_header a1
        /\ get_free (mem s5) (get_header a1) = true
        /\ get_size (mem s5) (get_header a1)
             = ALIGN 10 + ALIGN 20 + HEADER_SIZE
        /\ let s6 := xfree a3 s5 in
           free_list_len fuel s6 = Some 1%nat
           /\ get_size (mem s6) (head s6)
                = ALIGN 10 + ALIGN 20 + ALIGN 30 + 2 * HEADER_SIZE
           /\ get_free (mem s6) (head s6) = true
           /\ head s6 = get_header a1
           /\ tail s6 = get_header a1).
Proof.
  intros Hbase Hroom Hlim Hfuel.
  destruct fuel as [|[|[|[|fuel]]]]; try lia.
  destruct (rt_malloc1 base lim Hbase Hroom Hlim m (4 + fuel))
    as (s1 & E1 & B1 & L1 & D1).
  destruct (rt_malloc2 base lim Hbase Hroom Hlim s1 (2 + fuel) B1 L1 D1)
    as (s2 & E2 & B2 & L2 & D2).
  destruct (rt_malloc3 base lim Hbase Hroom Hlim s2 (1 + fuel) B2 L2 D2)
    as (s3 & E3 & D3).
  pose proof (rt_free1 base lim Hbase Hroom Hlim s3 D3) as D4.
  pose proof (rt_free2 base lim Hbase Hroom Hlim _ D4) as D5.
  pose proof (rt_free3 base lim Hbase Hroom Hlim _ D5) as D6.
  assert (Hhdr : get_header (base + 32) = base).
  { unfold get_header. unfold_fields. wrap_norm. lia. }
  exists (base + 32), (base + 80), (base + 136), s3.
  split.
  { cbn [run run_call]. cbn [Nat.add] in E1, E2, E3.
    rewrite E1, E2, E3. reflexivity. }
  split.
  { apply (free_list_len_describes s3 _ _ D3); [|cbn; lia].
    repeat constructor; cbn [block_addr fst]; zlia. }
  cbv zeta. rewrite Hhdr.
  split.
  { apply (free_list_len_describes _ _ _ D5); [|cbn; lia].
    repeat constructor; cbn [block_addr fst]; zlia. }
  assert (Hlen1 : free_list_len (4 + fuel)
                    (xfree (base + 136)
                       (xfree (base + 80) (xfree (base + 32) s3)))
                  = Some 1%nat).
  { apply (free_list_len_describes _ _ _ D6); [|cbn; lia].
    repeat constructor; cbn [block_addr fst]; zlia. }
  destruct D5 as (H5 & _ & (Hs5 & Hf5 & _)).
  destruct D6 as (H6 & T6 & (Hs6 & Hf6 & _)).
  cbn [block_addr fst map List.last] in *.
  split; [exact H5|]. split; [exact Hf5|]. split; [rewrite Hs5; reflexivity|].
  split; [exact Hlen1|].
  rewrite H6. repeat split; assumption.
Qed.

(** The round trip on a process whose break starts at 4096. *)
Lemma merge_round_trip_witness :
  0 < 4096 /\ 4096 + 168 <= 65536 /\ 65536 < modulus /\ (3 < 4)%nat /\
  exists a1 a2 a3 s3,
    run 4 [Malloc 10; Malloc 20; Malloc 30] roomy = Some ([a1; a2; a3], s3)
    /\ free_list_len 4 s3 = Some 3%nat
    /\ free_list_len 4 (xfree a2 (xfree a1 s3)) = Some 2%nat
    /\ free_list_len 4 (xfree a3 (xfree a2 (xfree a1 s3))) = Some 1%nat.
Proof.
  assert (H1 : 0 < 4096) by lia.
  assert (H2 : 4096 + 168 <= 65536) by lia.
  assert (H3 : 65536 < modulus) by reflexivity.
  assert (H4 : (3 < 4)%nat) by lia.
  repeat (split; [assumption|]).
  destruct (merge_round_trip ∅ 4096 65536 4 H1 H2 H3 H4)
    as (a1 & a2 & a3 & s3 & Hrun & Hlen3 & Hlen2 & _ & _ & _ & Hlen1 & _).
  exists a1, a2, a3, s3. repeat split; assumption.
Defined.

(** * The calls on concrete processes *)

(** [rhs_address] without the reductions, for headers inside the address
    space. *)
Lemma rhs_address_in_range lhs size :
  0 <= lhs -> 0 <= size ->
  lhs + HEADER_SIZE + HEADER_SIZE * size < modulus ->
  rhs_address lhs size = lhs + HEADER_SIZE * (size + 1).
Proof.
  intros Hl Hs Hr. unfold rhs_address.
  rewrite (wrap_small (lhs + HEADER_SIZE)) by zlia.
  rewrite wrap_small by zlia. lia.
Qed.

(** C1: on the first call, when the system refuses to move the break,
    [xmalloc] leaves [init_heap]'s [NULL] unchecked and returns
    [NULL + 1], the address [HEADER_SIZE]; a later call that is refused
    returns [NULL]. *)
Theorem first_call_refused_returns_header_size :
  xmalloc 1 10 exhausted = Some (HEADER_SIZE, exhausted)
  /\ HEADER_SIZE <> NULL
  /\ option_map fst (run 2 [Malloc 10; Malloc 10] one_block_room)
     = Some [4128; NULL].
Proof. vm_compute. repeat split; discriminate. Qed.

(** C2: a free block of 16 bytes found for a request of 16 bytes leaves no
    room for a header, yet it is split: a fourth block appears, whose size
    is [2^64 - 32].  A block that is returned whole stays marked free and
    is handed out again by the next call. *)
Theorem exact_fit_is_split :
  outcome 8 first_released roomy
  = Some ([4128; 4176; 4224; NULL],
          Some [(4096, 16, true); (4144, 16, false); (4192, 1024, false)],
          4096, 4192)
  /\ outcome 8 exact_refit roomy
     = Some ([4128; 4176; 4224; NULL; 4128],
             Some [(4096, 16, false); (4640, modulus - HEADER_SIZE, true);
                   (4144, 16, false); (4192, 1024, false)],
             4096, 4192)
  /\ outcome 8 (exact_refit ++ [Malloc 8; Malloc 8]) roomy
     = Some ([4128; 4176; 4224; NULL; 4128; 4672; 4672],
             Some [(4096, 16, false); (4640, modulus - HEADER_SIZE, true);
                   (4144, 16, false); (4192, 1024, false)],
             4096, 4192).
Proof. vm_compute. repeat split. Qed.

(** C3: the right-hand block of a split is placed [HEADER_SIZE * size]
    bytes past the left header, not [size] bytes: after [exact_refit] the
    chain visits 4096, 4640, 4144, 4192, which is not ascending, and in the
    self-test the block split off the 136-byte block lies at 4640, beyond
    the break 4264. *)
Theorem split_breaks_address_order :
  rhs_address 4096 16 = 4096 + HEADER_SIZE + HEADER_SIZE * 16
  /\ rhs_address 4096 16 <> 4096 + HEADER_SIZE + 16
  /\ chain_from 8 (mem after_exact_refit) (head after_exact_refit)
     = Some [4096; 4640; 4144; 4192]
  /\ ascending [4096; 4640; 4144; 4192] = false
  /\ outcome 8 self_test roomy
     = Some ([4128; 4176; 4232; NULL; NULL; NULL; 4128],
             Some [(4096, 16, false); (4640, 88, true)], 4096, 4640)
  /\ brk (final_state 8 self_test roomy) = 4264.
Proof. vm_compute. repeat split; discriminate. Qed.

(** C4: releasing the middle block last, with both neighbours already
    free, merges it with the right neighbour only: the chain is left with
    two adjacent free blocks. *)
Theorem release_between_free_neighbours :
  outcome 8 release_middle_last roomy
  = Some ([4128; 4176; 4232; NULL; NULL; NULL],
          Some [(4096, 16, true); (4144, 88, true)], 4096, 4144)
  /\ adjacent_free (mem (final_state 8 release_middle_last roomy))
                   [4096; 4144] = true.
Proof. vm_compute. repeat split. Qed.

(** * What a release does to the headers *)

Ltac unfold_all :=
  unfold header_ok, apart, null_or_apart, get_header,
         get_size, get_free, get_next, get_prev,
         set_size, set_free, set_next, set_prev, init_header, field,
         OFF_SIZE, OFF_FREE, OFF_NEXT, OFF_PREV, HEADER_SIZE, NULL in *.

Ltac wrap_norm_hyps :=
  repeat match goal with
         | H : context [wrap ?z] |- _ => rewrite (wrap_small z) in H by zlia
         end.

Ltac norm_all := unfold_all; wrap_norm_hyps; wrap_norm.

Ltac exec_goal :=
  repeat (progress (proj_norm; unfold_code; unfold_fields; wrap_norm;
                    mem_norm; bool_norm)).

Ltac fin := first [assumption | reflexivity | zlia].

Section ReleaseSpec.
Variable ptr : Z.
Variable st : heap.
Hypothesis Hptr : HEADER_SIZE < ptr < modulus.

Let block := get_header ptr.
Let n := get_next (mem st) block.
Let p := get_prev (mem st) block.
Let st' := xfree ptr st.

Lemma release_right :
  n <> NULL -> get_free (mem st) n = true ->
  header_ok n -> apart block n ->
  null_or_apart (get_next (mem st) n) block ->
  get_free (mem st') block = true
  /\ get_size (mem st') block
     = wrap (get_size (mem st) block
             + wrap (get_size (mem st) n + HEADER_SIZE))
  /\ get_next (mem st') block = get_next (mem st) n
  /\ get_prev (mem st') block = p
  /\ (get_next (mem st) n <> NULL ->
      get_prev (mem st') (get_next (mem st) n) = block)
  /\ tail st' = (if tail st =? n then block else tail st)
  /\ head st' = head st
  /\ (forall a,
        a <> field block OFF_SIZE -> a <> field block OFF_FREE ->
        a <> field block OFF_NEXT ->
        get_next (mem st) n = NULL
        \/ a <> field (get_next (mem st) n) OFF_PREV ->
        load (mem st') a = load (mem st) a).
Proof.
  intros Hn Hf Hok Hap Hnn. subst st' p n block.
  rewrite xfree_right; [|zlia|..].
  - destruct Hnn as [Hnn|[Hnok Hnap]]; norm_all;
      repeat split; try intros a H1 H2 H3 H4; try intro;
      exec_goal; fin.
  - norm_all. exec_goal; fin.
  - norm_all. exec_goal; fin.
Qed.

Lemma release_left :
  n = NULL
  \/ (get_free (mem st) n = false /\ header_ok n /\ apart block n
      /\ apart p n) ->
  p <> NULL -> get_free (mem st) p = true ->
  header_ok p -> apart block p ->
  get_free (mem st') block = true
  /\ get_free (mem st') p = true
  /\ get_size (mem st') p
     = wrap (get_size (mem st) p
             + wrap (get_size (mem st) block + HEADER_SIZE))
  /\ get_next (mem st') p = n
  /\ get_prev (mem st') p = get_prev (mem st) p
  /\ (n <> NULL -> get_prev (mem st') n = p)
  /\ tail st' = (if tail st =? block then p else tail st)
  /\ head st' = head st
  /\ (forall a,
        a <> field block OFF_FREE ->
        a <> field p OFF_SIZE -> a <> field p OFF_NEXT ->
        n = NULL \/ a <> field n OFF_PREV ->
        load (mem st') a = load (mem st) a).
Proof.
  intros Hn Hp Hf Hok Hap. subst st' p n block.
  rewrite xfree_left; [|zlia|..].
  - destruct Hn as [Hn|(Hnf & Hnok & Hnap & Hnap')]; norm_all;
      repeat split; try intros a H1 H2 H3 H4; try intro;
      exec_goal; fin.
  - destruct Hn as [Hn|(Hnf & Hnok & Hnap & Hnap')]; norm_all;
      [left|right]; exec_goal; fin.
  - norm_all. exec_goal; fin.
  - norm_all. exec_goal; fin.
Qed.

Lemma release_neither :
  n = NULL
  \/ (get_free (mem st) n = false /\ header_ok n /\ apart block n) ->
  p = NULL
  \/ (get_free (mem st) p = false /\ header_ok p /\ apart block p) ->
  st' = with_mem st (set_free block true (mem st))
  /\ get_free (mem st') block = true
  /\ get_size (mem st') block = get_size (mem st) block
  /\ get_next (mem st') block = n
  /\ get_prev (mem st') block = p
  /\ (forall a, a <> field block OFF_FREE ->
                load (mem st') a = load (mem st) a).
Proof.
  intros Hn Hp. subst st' p n block.
  rewrite xfree_neither; [|zlia|..].
  - norm_all. repeat split; try intros a H1; exec_goal; fin.
  - destruct Hn as [Hn|(Hnf & Hnok & Hnap)]; norm_all;
      [left|right]; exec_goal; fin.
  - destruct Hp as [Hp|(Hpf & Hpok & Hpap)]; norm_all;
      [left|right]; exec_goal; fin.
Qed.
End ReleaseSpec.

(** C7: a release of a valid pointer marks its block free and then merges
    on one side at most.  If the right neighbour exists and is free it is
    absorbed into the block (size plus one header, links and [tail]
    updated) and nothing left of the block is written; otherwise, if the
    left neighbour exists and is free, the block is absorbed into it;
    otherwise only the flag of the block changes. *)
Theorem release_merges_one_side (ptr : Z) (st : heap) :
  HEADER_SIZE < ptr < modulus ->
  let block := get_header ptr in
  let n := get_next (mem st) block in
  let p := get_prev (mem st) block in
  let st' := xfree ptr st in
  (n <> NULL -> get_free (mem st) n = true ->
   header_ok n -> apart block n ->
   null_or_apart (get_next (mem st) n) block ->
   get_free (mem st') block = true
   /\ get_size (mem st') block
      = wrap (get_size (mem st) block
              + wrap (get_size (mem st) n + HEADER_SIZE))
   /\ get_next (mem st') block = get_next (mem st) n
   /\ get_prev (mem st') block = p
   /\ (get_next (mem st) n <> NULL ->
       get_prev (mem st') (get_next (mem st) n) = block)
   /\ tail st' = (if tail st =? n then block else tail st)
   /\ head st' = head st
   /\ (forall a,
         a <> field block OFF_SIZE -> a <> field block OFF_FREE ->
         a <> field block OFF_NEXT ->
         get_next (mem st) n = NULL
         \/ a <> field (get_next (mem st) n) OFF_PREV ->
         load (mem st') a = load (mem st) a))
  /\ (n = NULL
      \/ (get_free (mem st) n = false /\ header_ok n /\ apart block n
          /\ apart p n) ->
      p <> NULL -> get_free (mem st) p = true ->
      header_ok p -> apart block p ->
      get_free (mem st') block = true
      /\ get_free (mem st') p = true
      /\ get_size (mem st') p
         = wrap (get_size (mem st) p
                 + wrap (get_size (mem st) block + HEADER_SIZE))
      /\ get_next (mem st') p = n
      /\ get_prev (mem st') p = get_prev (mem st) p
      /\ (n <> NULL -> get_prev (mem st') n = p)
      /\ tail st' = (if tail st =? block then p else tail st)
      /\ head st' = head st
      /\ (forall a,
            a <> field block OFF_FREE ->
            a <> field p OFF_SIZE -> a <> field p OFF_NEXT ->
            n = NULL \/ a <> field n OFF_PREV ->
            load (mem st') a = load (mem st) a))
  /\ (n = NULL
      \/ (get_free (mem st) n = false /\ header_ok n /\ apart block n) ->
      p = NULL
      \/ (get_free (mem st) p = false /\ header_ok p /\ apart block p) ->
      st' = with_mem st (set_free block true (mem st))
      /\ get_free (mem st') block = true
      /\ get_size (mem st') block = get_size (mem st) block
      /\ get_next (mem st') block = n
      /\ get_prev (mem st') block = p
      /\ (forall a, a <> field block OFF_FREE ->
                    load (mem st') a = load (mem st) a)).
Proof.
  intros Hptr. cbv zeta. split; [|split].
  - now apply release_right.
  - now apply release_left.
  - now apply release_neither.
Qed.

(** The middle block of three, released between two free neighbours: the
    right one is absorbed and the left one keeps its size. *)
Lemma release_merges_one_side_witness :
  HEADER_SIZE < 4176 < modulus
  /\ get_free (mem (xfree 4176 outer_released)) 4144 = true
  /\ get_size (mem (xfree 4176 outer_released)) 4144
     = wrap (get_size (mem outer_released) 4144
             + wrap (get_size (mem outer_released) 4200 + HEADER_SIZE))
  /\ tail (xfree 4176 outer_released) = 4144
  /\ get_size (mem (xfree 4176 outer_released)) 4096
     = get_size (mem outer_released) 4096.
Proof.
  assert (Hptr : HEADER_SIZE < 4176 < modulus) by (split; reflexivity).
  split; [exact Hptr|].
  destruct (release_merges_one_side 4176 outer_released Hptr) as [Hr _].
  assert (Hblock : get_header 4176 = 4144) by reflexivity.
  assert (Hn : get_next (mem outer_released) 4144 = 4200)
    by (vm_compute; reflexivity).
  assert (Hnn : get_next (mem outer_released) 4200 = NULL)
    by (vm_compute; reflexivity).
  assert (Ht : tail outer_released = 4200) by (vm_compute; reflexivity).
  rewrite Hblock, Hn, Hnn, Ht in Hr.
  assert (P1 : 4200 <> NULL) by discriminate.
  assert (P2 : get_free (mem outer_released) 4200 = true)
    by (vm_compute; reflexivity).
  assert (P3 : header_ok 4200)
    by (split; [reflexivity | vm_compute; discriminate]).
  assert (P4 : apart 4144 4200) by (left; vm_compute; discriminate).
  assert (P5 : null_or_apart NULL 4144) by (left; reflexivity).
  destruct (Hr P1 P2 P3 P4 P5)
    as (Hfree & Hsize & _ & _ & _ & Htail & _ & Hframe).
  split; [exact Hfree|]. split; [exact Hsize|]. split; [exact Htail|].
  unfold get_size. apply (Hframe (field 4096 OFF_SIZE)).
  all: try (left; reflexivity).
  all: vm_compute; discriminate.
Defined.

(** A second request on a process that has room for one block only. *)
Lemma refused_growth_leaves_state_witness :
  is_chain (mem one_block_full) (head one_block_full) [4096] = true
  /\ (length [4096] < 2)%nat
  /\ List.find (fits (mem one_block_full) (ALIGN 10)) [4096] = None
  /\ limit one_block_full
     < brk one_block_full + wrap (HEADER_SIZE + ALIGN 10)
  /\ exists r, xmalloc 2 10 one_block_full = Some (r, one_block_full)
               /\ (r = NULL \/ (head one_block_full = NULL
                                /\ r = HEADER_SIZE)).
Proof.
  assert (H1 : is_chain (mem one_block_full) (head one_block_full) [4096]
               = true) by (vm_compute; reflexivity).
  assert (H2 : (length [4096] < 2)%nat) by (simpl; lia).
  assert (H3 : List.find (fits (mem one_block_full) (ALIGN 10)) [4096]
               = None) by (vm_compute; reflexivity).
  assert (H4 : limit one_block_full
               < brk one_block_full + wrap (HEADER_SIZE + ALIGN 10))
    by (vm_compute; reflexivity).
  repeat (split; [assumption|]).
  exact (refused_growth_leaves_state 2 10 one_block_full [4096]
           H1 H2 H3 H4).
Defined.

(** * Rounding *)

Lemma wrap_lnot_mask : wrap (Z.lnot (ALIGNMENT - 1)) = modulus - ALIGNMENT.
Proof. reflexivity. Qed.

Lemma land_mask x :
  0 <= x < modulus -> Z.land x (modulus - ALIGNMENT) = ALIGNMENT * (x / ALIGNMENT).
Proof.
  intros Hx.
  change (modulus - ALIGNMENT) with (Z.land (Z.lnot (Z.ones 3)) (Z.ones 64)).
  rewrite Z.land_assoc, (Z.land_comm x), <- Z.land_assoc.
  rewrite (Z.land_ones x 64) by lia.
  change (2 ^ 64) with modulus. rewrite (Z.mod_small x) by lia.
  rewrite Z.land_comm, <- Z.ldiff_land, Z.ldiff_ones_r by lia.
  rewrite Z.shiftr_div_pow2, Z.shiftl_mul_pow2 by lia.
  change (2 ^ 3) with ALIGNMENT. lia.
Qed.

Lemma ALIGN_eq s : ALIGN s = ALIGNMENT * (wrap (s + (ALIGNMENT - 1)) / ALIGNMENT).
Proof.
  unfold ALIGN. rewrite wrap_lnot_mask. apply land_mask, wrap_range.
Qed.

Lemma ALIGN_bounds s :
  0 <= ALIGN s <= modulus - ALIGNMENT
  /\ ALIGN s mod ALIGNMENT = 0
  /\ ALIGN s <= wrap (s + (ALIGNMENT - 1)) < ALIGN s + ALIGNMENT.
Proof.
  rewrite ALIGN_eq. pose proof (wrap_range (s + (ALIGNMENT - 1))) as Hr.
  pose proof modulus_eq as Hm. unfold ALIGNMENT in *.
  set (x := wrap (s + (8 - 1))) in *.
  pose proof (Z.div_mod x 8 ltac:(lia)) as Hd.
  pose proof (Z.mod_pos_bound x 8 ltac:(lia)) as Hb.
  repeat split; try lia.
  rewrite Z.mul_comm. apply Z.mod_mul. lia.
Qed.



Lemma ALIGN_rounds_up s :
  0 <= s <= modulus - ALIGNMENT -> s <= ALIGN s < s + ALIGNMENT.
Proof.
  intros Hs. destruct (ALIGN_bounds s) as (_ & _ & Hb).
  rewrite wrap_small in Hb by zlia. unfold ALIGNMENT in *. lia.
Qed.



(** * What the loop returns *)

Lemma scan_some_fits m size : forall fuel p b,
  scan fuel m size p = Some b -> b <> NULL -> fits m size b = true.
Proof.
  induction fuel as [|fuel IH]; intros p b Hs Hb; [discriminate|].
  cbn [scan] in Hs. fold (fits m size p) in Hs.
  destruct (negb (p =? NULL) && negb (fits m size p)) eqn:E.
  - now apply (IH _ _ Hs).
  - injection Hs as ->. apply andb_false_iff in E as [E|E].
    + apply negb_false_iff, Z.eqb_eq in E. contradiction.
    + now apply negb_false_iff in E.
Qed.

Lemma fits_spec m size b :
  fits m size b = true <-> size <= get_size m b /\ get_free m b = true.
Proof.
  unfold fits. rewrite andb_true_iff, Z.leb_le. reflexivity.
Qed.

Lemma can_split_small m b size :
  0 <= size <= get_size m b -> get_size m b + HEADER_SIZE < modulus ->
  can_split_block m b size = true.
Proof.
  intros Hs Hr. unfold can_split_block.
  rewrite wrap_small by zlia. apply Z.ltb_lt. zlia.
Qed.

Lemma rhs_size_wraps m b size :
  0 <= size <= get_size m b -> get_size m b < size + HEADER_SIZE ->
  rhs_size m b size = get_size m b - size - HEADER_SIZE + modulus
  /\ modulus - HEADER_SIZE <= rhs_size m b size < modulus.
Proof.
  intros Hs Hlt. unfold rhs_size, wrap.
  rewrite <- (Z.mod_add _ 1) by (rewrite modulus_eq; lia).
  rewrite Z.mod_small by zlia. zlia.
Qed.

(** * What a split does to the headers *)

Section SplitSpec.
Variable st : heap.
Variables b size : Z.
Hypothesis Hlay : split_layout (mem st) b size.

Let rhs := rhs_address b size.
Let n := get_next (mem st) b.
Let st' := snd (split_block b size st).

Lemma split_block_spec :
  fst (split_block b size st) = b
  /\ get_size (mem st') b = size
  /\ get_free (mem st') b = false
  /\ get_next (mem st') b = rhs
  /\ get_prev (mem st') b = get_prev (mem st) b
  /\ get_size (mem st') rhs = rhs_size (mem st) b size
  /\ get_free (mem st') rhs = true
  /\ get_prev (mem st') rhs = b
  /\ get_next (mem st') rhs = n
  /\ (n <> NULL -> get_prev (mem st') n = rhs)
  /\ tail st' = (if b =? tail st then rhs else tail st)
  /\ head st' = head st.
Proof.
  subst st' n rhs. unfold split_block, rhs_size. cbn [fst snd mem head tail].
  destruct Hlay as (Hb & Hr & Hap & Hn). clear Hlay.
  revert Hr Hap Hn. generalize (rhs_address b size). intros r Hr Hap Hn.
  destruct Hn as [Hn|(Hnok & Hnap & Hnap')]; norm_all;
    repeat split; try intro; exec_goal; fin.
Qed.
End SplitSpec.

(** C5, for blocks below [2^64 - HEADER_SIZE] bytes: a block found by the
    search whose size plus one header does not reach [2^64] always passes
    the split test, so it is split; when its size is below
    [size + HEADER_SIZE] the size recorded for the new right-hand block is
    [block.size - size - HEADER_SIZE + 2^64]. *)
Theorem found_block_is_split (fuel : nat) (size : Z) (st : heap) (b : Z) :
  scan fuel (mem st) size (head st) = Some b ->
  b <> NULL ->
  0 <= size ->
  get_size (mem st) b + HEADER_SIZE < modulus ->
  (size <= get_size (mem st) b /\ get_free (mem st) b = true)
  /\ can_split_block (mem st) b size = true
  /\ search_free_list fuel size st = Some (split_block b size st)
  /\ (get_size (mem st) b < size + HEADER_SIZE ->
      rhs_size (mem st) b size
      = get_size (mem st) b - size - HEADER_SIZE + modulus
      /\ modulus - HEADER_SIZE <= rhs_size (mem st) b size < modulus)
  /\ (split_layout (mem st) b size ->
      get_next (mem (snd (split_block b size st))) b = rhs_address b size
      /\ get_size (mem (snd (split_block b size st))) (rhs_address b size)
         = rhs_size (mem st) b size
      /\ get_free (mem (snd (split_block b size st))) (rhs_address b size)
         = true).
Proof.
  intros Hscan Hb Hsize Hsmall.
  pose proof (scan_some_fits _ _ _ _ _ Hscan Hb) as Hfit.
  apply fits_spec in Hfit as [Hle Hfree].
  assert (Hcan : can_split_block (mem st) b size = true)
    by (apply can_split_small; [lia | assumption]).
  split; [now split|]. split; [exact Hcan|]. split; [|split].
  - unfold search_free_list. rewrite Hscan, Hcan.
    apply Z.eqb_neq in Hb. now rewrite Hb.
  - intros Hlt. apply rhs_size_wraps; [lia | assumption].
  - intros Hlay.
    destruct (split_block_spec st b size Hlay)
      as (_ & _ & _ & Hnext & _ & Hrsize & Hrfree & _).
    repeat split; assumption.
Qed.

(** The exact fit of [first_released]: 16 bytes requested, 16 bytes found,
    and the block split off records [2^64 - 32] bytes. *)
Lemma found_block_is_split_witness :
  scan 8 (mem (final_state 8 first_released roomy)) 16
       (head (final_state 8 first_released roomy)) = Some 4096
  /\ 4096 <> NULL /\ 0 <= 16
  /\ get_size (mem (final_state 8 first_released roomy)) 4096 + HEADER_SIZE
     < modulus
  /\ can_split_block (mem (final_state 8 first_released roomy)) 4096 16 = true
  /\ rhs_size (mem (final_state 8 first_released roomy)) 4096 16
     = get_size (mem (final_state 8 first_released roomy)) 4096
       - 16 - HEADER_SIZE + modulus.
Proof.
  assert (H1 : scan 8 (mem (final_state 8 first_released roomy)) 16
                    (head (final_state 8 first_released roomy)) = Some 4096)
    by (vm_compute; reflexivity).
  assert (H2 : 4096 <> NULL) by discriminate.
  assert (H3 : 0 <= 16) by lia.
  assert (H4 : get_size (mem (final_state 8 first_released roomy)) 4096
               + HEADER_SIZE < modulus) by (vm_compute; reflexivity).
  assert (H5 : get_size (mem (final_state 8 first_released roomy)) 4096
               < 16 + HEADER_SIZE) by (vm_compute; reflexivity).
  repeat (split; [assumption|]).
  destruct (found_block_is_split 8 16 _ 4096 H1 H2 H3 H4)
    as (_ & Hcan & _ & Hwrap & _).
  split; [exact Hcan | exact (proj1 (Hwrap H5))].
Defined.

(** C5, as stated, fails on a block of [2^64 - 32] bytes: after
    [exact_refit] a request of 8 bytes finds the block at 4640, the split
    test [size + HEADER_SIZE > 8] wraps to [0 > 8], and the block is
    returned unsplit. *)
Lemma huge_block_is_not_split :
  run 8 exact_refit roomy
  = Some ([4128; 4176; 4224; NULL; 4128], after_exact_refit)
  /\ scan 8 (mem after_exact_refit) 8 (head after_exact_refit) = Some 4640
  /\ fits (mem after_exact_refit) 8 4640 = true
  /\ get_size (mem after_exact_refit) 4640 = modulus - HEADER_SIZE
  /\ can_split_block (mem after_exact_refit) 4640 8 = false
  /\ search_free_list 8 8 after_exact_refit = Some (4640, after_exact_refit).
Proof. vm_compute. repeat split. Qed.

(** * The paths of an allocation *)



Section Paths.
Variable fuel : nat.
Variable s : Z.
Variable st : heap.

Lemma xmalloc_seeds_chain :
  head st = NULL ->
  header_ok (brk st) -> brk st + HEADER_SIZE < modulus ->
  brk st + wrap (HEADER_SIZE + ALIGN s) <= limit st ->
  exists st',
    xmalloc fuel s st = Some (brk st + HEADER_SIZE, st')
    /\ get_size (mem st') (brk st) = ALIGN s
    /\ get_free (mem st') (brk st) = false
    /\ head st' = brk st /\ tail st' = brk st.
Proof.
  intros Hh Hok Hp Hroom. unfold xmalloc. rewrite Hh.
  revert Hroom. generalize (ALIGN s). intros sz Hroom.
  destruct st as [m h t b l]. cbn [mem head tail brk limit] in *.
  norm_all. eexists. split; [exec_goal; reflexivity|].
  repeat split; exec_goal; fin.
Qed.


Lemma xmalloc_whole b :
  head st <> NULL ->
  scan fuel (mem st) (ALIGN s) (head st) = Some b ->
  b <> NULL ->
  can_split_block (mem st) b (ALIGN s) = false ->
  xmalloc fuel s st = Some (wrap (b + HEADER_SIZE), st)
  /\ ALIGN s <= get_size (mem st) b
  /\ get_free (mem st) b = true.
Proof.
  intros Hh Hscan Hb Hcan.
  pose proof (scan_some_fits _ _ _ _ _ Hscan Hb) as Hfit.
  apply fits_spec in Hfit as [Hle Hfree].
  split; [|now split].
  unfold xmalloc, search_free_list. rewrite Hscan, Hcan.
  apply Z.eqb_neq in Hh, Hb. now rewrite Hh, Hb, Hb.
Qed.

End Paths.

(** * Rounding, path by path *)







(** * Further properties of the code *)

(** ** Pointers and headers *)

(** X1: [get_header] undoes the [block + 1] of [xmalloc] and the other
    way round, for every 64-bit value: the mapping between a block and its
    payload pointer is exact. *)
Theorem header_pointer_round_trip (b : Z) :
  0 <= b < modulus ->
  get_header (wrap (b + HEADER_SIZE)) = b
  /\ wrap (get_header b + HEADER_SIZE) = b.
Proof.
  intros Hb. unfold get_header, wrap.
  rewrite Zminus_mod_idemp_l, Zplus_mod_idemp_l.
  replace (b + HEADER_SIZE - HEADER_SIZE) with b by lia.
  replace (b - HEADER_SIZE + HEADER_SIZE) with b by lia.
  split; now apply Z.mod_small.
Qed.

Lemma header_pointer_round_trip_witness :
  0 <= 4096 < modulus
  /\ get_header (wrap (4096 + HEADER_SIZE)) = 4096
  /\ wrap (get_header 4096 + HEADER_SIZE) = 4096.
Proof.
  assert (H : 0 <= 4096 < modulus) by (split; [lia | reflexivity]).
  split; [exact H | exact (header_pointer_round_trip 4096 H)].
Defined.

(** X2: for requests up to [2^64 - 8], [ALIGN s] is the least multiple of
    the word size that is not below [s]; it leaves multiples of the word
    size alone.  Above [2^64 - 8] the addition wraps and [ALIGN s] is 0. *)
Theorem ALIGN_least_multiple (s : Z) :
  0 <= s < modulus ->
  (s <= modulus - ALIGNMENT ->
   ALIGN s mod ALIGNMENT = 0
   /\ s <= ALIGN s
   /\ (forall t, t mod ALIGNMENT = 0 -> s <= t -> ALIGN s <= t)
   /\ (s mod ALIGNMENT = 0 -> ALIGN s = s))
  /\ (modulus - ALIGNMENT < s -> ALIGN s = 0).
Proof.
  intros Hs. split.
  - intros Hle. destruct (ALIGN_bounds s) as (_ & Hm & _).
    pose proof (ALIGN_rounds_up s ltac:(lia)) as Hr.
    split; [exact Hm|]. split; [lia|]. unfold ALIGNMENT in *. split.
    + intros t Ht Hst.
      pose proof (Z.div_mod t 8 ltac:(lia)) as Hdt.
      pose proof (Z.div_mod (ALIGN s) 8 ltac:(lia)) as Hda. lia.
    + intros Hsm.
      pose proof (Z.div_mod s 8 ltac:(lia)) as Hds.
      pose proof (Z.div_mod (ALIGN s) 8 ltac:(lia)) as Hda. lia.
  - intros Hgt. rewrite ALIGN_eq. unfold wrap, ALIGNMENT in *.
    pose proof modulus_eq as Hm.
    replace (s + (8 - 1)) with (s + 7 - modulus + 1 * modulus) by lia.
    rewrite Z.mod_add by lia. rewrite Z.mod_small by lia.
    rewrite Z.div_small by lia. reflexivity.
Qed.

Lemma ALIGN_least_multiple_witness :
  0 <= 10 < modulus /\ ALIGN 10 mod ALIGNMENT = 0 /\ 10 <= ALIGN 10.
Proof.
  assert (H : 0 <= 10 < modulus) by (split; [lia | reflexivity]).
  split; [exact H|].
  destruct (ALIGN_least_multiple 10 H) as [Hlow _].
  destruct (Hlow ltac:(vm_compute; discriminate)) as (H1 & H2 & _).
  now split.
Defined.

(** ** What [init_header] writes *)



(** ** What a run of calls never does *)

Lemma get_heap_mem_state size st :
  let st' := snd (get_heap_mem size st) in
  head st' = head st /\ tail st' = tail st /\ limit st' = limit st
  /\ (brk st' = brk st
      \/ (brk st' = brk st + wrap (HEADER_SIZE + size)
          /\ brk st' <= limit st)).
Proof.
  unfold get_heap_mem, get_raw_heap_mem, sbrk.
  destruct (Z.leb_spec (brk st + wrap (HEADER_SIZE + size)) (limit st))
    as [Hle|Hgt];
    [destruct (brk st =? SBRK_FAILED); [|destruct (brk st =? NULL)]|];
    cbn [fst snd head tail limit brk with_brk with_mem];
    (repeat split; try reflexivity);
    first [left; reflexivity | right; split; [reflexivity | assumption]].
Qed.

Lemma xmalloc_globals fuel s st p st' :
  xmalloc fuel s st = Some (p, st') ->
  brk st <= brk st' /\ limit st' = limit st
  /\ (brk st <= limit st -> brk st' <= limit st)
  /\ (head st <> NULL -> head st' = head st).
Proof.
  intros Hx.
  pose proof (get_heap_mem_state (ALIGN s) st) as Hg.
  pose proof (wrap_range (HEADER_SIZE + ALIGN s)) as Hw.
  unfold xmalloc in Hx. destruct (head st =? NULL) eqn:Hh.
  - apply Z.eqb_eq in Hh. unfold init_heap in Hx.
    destruct (get_heap_mem (ALIGN s) st) as [blk st1]. cbn [snd] in Hg.
    destruct Hg as (_ & _ & Hl & Hb).
    destruct (blk =? NULL); cbv beta iota in Hx; injection Hx as <- <-;
      cbn [brk limit head with_head with_tail];
      repeat split; try assumption; try contradiction; lia.
  - unfold search_free_list in Hx.
    destruct (scan fuel (mem st) (ALIGN s) (head st)) as [c|]; [|discriminate].
    destruct (c =? NULL) eqn:Ec.
    + cbn [Z.eqb NULL] in Hx. unfold expand_free_list in Hx.
      destruct (get_heap_mem (ALIGN s) st) as [blk st1]. cbn [snd] in Hg.
      destruct Hg as (Hhd & _ & Hl & Hb).
      destruct (blk =? NULL) eqn:Eb; cbv beta iota in Hx;
        rewrite ?Eb in Hx; injection Hx as <- <-;
        cbn [brk limit head append_to_free_list];
        repeat split; try assumption; try (intros; assumption); lia.
    + destruct (can_split_block (mem st) c (ALIGN s));
        cbn [split_block] in Hx; rewrite Ec in Hx; injection Hx as <- <-;
        cbn [brk limit head]; repeat split; try reflexivity; lia.
Qed.

Lemma xfree_globals ptr st :
  brk (xfree ptr st) = brk st /\ limit (xfree ptr st) = limit st
  /\ head (xfree ptr st) = head st.
Proof.
  unfold xfree, merge_adjacent_free_blocks.
  destruct (ptr =? NULL); [auto|].
  repeat match goal with
         | |- context [if ?c then _ else _] => destruct c
         end; cbn; auto.
Qed.

(** X4: over any run of [xmalloc] and [xfree] calls whose requests reach
    [sbrk] as increments of at most [INTPTR_MAX] the break never moves down
    and never passes the limit: memory is never handed back to the system,
    and a release leaves the break where it was.  (A larger request reaches
    the system's [sbrk] as a negative increment; the [sbrk] modelled here
    refuses it instead, and such runs are left out.) *)
Theorem break_never_moves_down (fuel : nat) (cs : list call) :
  Forall nonnegative_increment cs ->
  forall st rs st',
    run fuel cs st = Some (rs, st') ->
    brk st <= brk st' /\ limit st' = limit st
    /\ (brk st <= limit st -> brk st' <= limit st).
Proof.
  intros _.
  induction cs as [|c cs IH]; intros st rs st' Hr.
  - injection Hr as <- <-. repeat split; lia.
  - cbn [run] in Hr.
    destruct (run_call fuel c st) as [[r st1]|] eqn:Hc; [|discriminate].
    destruct (run fuel cs st1) as [[rs1 st2]|] eqn:Hrest; [|discriminate].
    injection Hr as <- <-.
    destruct (IH _ _ _ Hrest) as (Hb & Hl & Hle).
    assert (Hstep : brk st <= brk st1 /\ limit st1 = limit st
                    /\ (brk st <= limit st -> brk st1 <= limit st)).
    { destruct c as [s|ptr]; cbn [run_call] in Hc.
      - destruct (xmalloc_globals _ _ _ _ _ Hc) as (H1 & H2 & H3 & _).
        now repeat split.
      - injection Hc as <- <-.
        destruct (xfree_globals ptr st) as (H1 & H2 & _).
        rewrite H1, H2. repeat split; lia. }
    destruct Hstep as (Hb1 & Hl1 & Hle1).
    repeat split; [lia | congruence |].
    intros H0. rewrite Hl1 in Hle. apply Hle. now apply Hle1.
Qed.

Lemma break_never_moves_down_witness :
  Forall nonnegative_increment self_test
  /\ run 8 self_test roomy
     = Some ([4128; 4176; 4232; NULL; NULL; NULL; 4128],
             final_state 8 self_test roomy)
  /\ brk roomy <= brk (final_state 8 self_test roomy).
Proof.
  assert (H0 : Forall nonnegative_increment self_test).
  { repeat constructor; vm_compute; discriminate. }
  assert (H : run 8 self_test roomy
              = Some ([4128; 4176; 4232; NULL; NULL; NULL; 4128],
                      final_state 8 self_test roomy))
    by (vm_compute; reflexivity).
  split; [exact H0|]. split; [exact H|].
  exact (proj1 (break_never_moves_down 8 self_test H0 roomy _ _ H)).
Defined.

(** X5: once [head] is set no call changes it: the first block of the
    chain is never unlinked, whatever is allocated, split, merged or
    released afterwards. *)
Theorem head_never_changes (fuel : nat) (cs : list call) :
  forall st rs st',
    head st <> NULL ->
    run fuel cs st = Some (rs, st') ->
    head st' = head st.
Proof.
  induction cs as [|c cs IH]; intros st rs st' Hh Hr.
  - now injection Hr as <- <-.
  - cbn [run] in Hr.
    destruct (run_call fuel c st) as [[r st1]|] eqn:Hc; [|discriminate].
    destruct (run fuel cs st1) as [[rs1 st2]|] eqn:Hrest; [|discriminate].
    injection Hr as <- <-. rename st2 into st'.
    assert (Hstep : head st1 = head st).
    { destruct c as [s|ptr]; cbn [run_call] in Hc.
      - destruct (xmalloc_globals _ _ _ _ _ Hc) as (_ & _ & _ & H4).
        now apply H4.
      - injection Hc as <- <-. apply xfree_globals. }
    rewrite <- Hstep. apply (IH st1 rs1 st'); [congruence | exact Hrest].
Qed.

Lemma head_never_changes_witness :
  head one_block_full <> NULL
  /\ run 8 [Free 4128; Malloc 10] one_block_full
     = Some ([NULL; 4128], final_state 8 [Free 4128; Malloc 10] one_block_full)
  /\ head (final_state 8 [Free 4128; Malloc 10] one_block_full)
     = head one_block_full.
Proof.
  assert (H1 : head one_block_full <> NULL) by (vm_compute; discriminate).
  assert (H2 : run 8 [Free 4128; Malloc 10] one_block_full
               = Some ([NULL; 4128],
                       final_state 8 [Free 4128; Malloc 10] one_block_full))
    by (vm_compute; reflexivity).
  split; [exact H1|]. split; [exact H2|].
  exact (head_never_changes 8 _ _ _ _ H1 H2).
Defined.

(** ** The length query *)

Lemma free_list_len_from_spec m : forall fuel p n,
  free_list_len_from fuel m p = Some n <->
  (n < fuel)%nat /\ nth_next m p n = NULL
  /\ forall k, (k < n)%nat -> nth_next m p k <> NULL.
Proof.
  induction fuel as [|fuel IH]; intros p n.
  - cbn. split; [discriminate | intros (H & _); lia].
  - cbn [free_list_len_from]. destruct (p =? NULL) eqn:Hp.
    + apply Z.eqb_eq in Hp. split.
      * intros H. injection H as <-. cbn. repeat split; [lia | assumption | lia].
      * intros (_ & Hn & Hk). destruct n as [|n]; [reflexivity|].
        exfalso. apply (Hk O); [lia | exact Hp].
    + apply Z.eqb_neq in Hp.
      destruct (free_list_len_from fuel m (get_next m p)) as [n'|] eqn:Hrec;
        cbn [option_map].
      * apply IH in Hrec as (Hlt & Hn & Hk). split.
        -- intros H. injection H as <-. repeat split; [lia | exact Hn |].
           intros [|k] Hkn; [exact Hp | apply Hk; lia].
        -- intros (_ & Hn' & Hk'). f_equal.
           destruct n as [|n]; [contradiction|]. cbn [nth_next] in Hn'.
           destruct (Nat.lt_trichotomy n n') as [Hc|[Hc|Hc]]; [|congruence|].
           ++ exfalso. apply (Hk n Hc Hn').
           ++ exfalso. apply (Hk' (S n')); [lia | exact Hn].
      * split; [discriminate|]. intros (Hlt & Hn & Hk).
        destruct n as [|n]; [contradiction|].
        assert (Hs : free_list_len_from fuel m (get_next m p) = Some n).
        { apply IH. repeat split; [lia | exact Hn |].
          intros k Hkn. apply (Hk (S k)). lia. }
        congruence.
Qed.

(** X6: when [n] steps along [next] from [head] reach [NULL] for the first
    time and [n] is at most [INT_MAX], the largest count an [int] holds,
    [free_list_len] returns [n]; the loop needs [n + 1] tests to get
    there. *)
Theorem free_list_len_counts_steps (st : heap) (n : nat) :
  Z.of_nat n <= INT_MAX ->
  nth_next (mem st) (head st) n = NULL ->
  (forall k, (k < n)%nat -> nth_next (mem st) (head st) k <> NULL) ->
  forall fuel,
    free_list_len fuel st = if (n <? fuel)%nat then Some n else None.
Proof.
  intros _ Hn Hk fuel. destruct (Nat.ltb_spec n fuel) as [Hlt|Hge].
  - apply free_list_len_from_spec. now repeat split.
  - destruct (free_list_len fuel st) as [k|] eqn:E; [|reflexivity].
    apply free_list_len_from_spec in E as (Hlt & Hkn & Hkk).
    exfalso. destruct (Nat.lt_trichotomy k n) as [Hc|[Hc|Hc]]; [|lia|].
    + apply (Hk k Hc Hkn).
    + apply (Hkk n Hc Hn).
Qed.

(** Three blocks allocated: three steps from [head] reach [NULL]. *)
Lemma free_list_len_counts_steps_witness :
  Z.of_nat 3 <= INT_MAX
  /\ free_list_len 4 (final_state 8 [Malloc 10; Malloc 20; Malloc 30] roomy)
     = Some 3%nat.
Proof.
  assert (H1 : Z.of_nat 3 <= INT_MAX) by (vm_compute; discriminate).
  split; [exact H1|].
  apply (free_list_len_counts_steps
           (final_state 8 [Malloc 10; Malloc 20; Malloc 30] roomy) 3 H1).
  - vm_compute. reflexivity.
  - intros [|[|[|k]]] Hk; try lia; vm_compute; discriminate.
Defined.

(** ** A block that is returned whole *)

(** X7: a found block fails the split test only when its size is within
    [HEADER_SIZE] of [2^64]; [xmalloc] then returns it without writing
    anything, so the block is still marked free and the same request is
    served with the same pointer again. *)
Theorem whole_block_stays_free (fuel : nat) (s : Z) (st : heap) (b : Z) :
  head st <> NULL ->
  scan fuel (mem st) (ALIGN s) (head st) = Some b ->
  b <> NULL ->
  can_split_block (mem st) b (ALIGN s) = false ->
  modulus <= get_size (mem st) b + HEADER_SIZE
  /\ get_free (mem st) b = true
  /\ run fuel [Malloc s; Malloc s] st
     = Some ([wrap (b + HEADER_SIZE); wrap (b + HEADER_SIZE)], st).
Proof.
  intros Hh Hscan Hb Hcan.
  destruct (xmalloc_whole fuel s st b Hh Hscan Hb Hcan) as (Hx & Hle & Hfree).
  split; [|split; [exact Hfree|]].
  - destruct (ALIGN_bounds s) as (Hr & _).
    destruct (Z.lt_ge_cases (get_size (mem st) b + HEADER_SIZE) modulus)
      as [Hlt|Hge]; [|exact Hge].
    rewrite can_split_small in Hcan; [discriminate | lia | exact Hlt].
  - cbn [run run_call]. rewrite Hx, Hx. reflexivity.
Qed.

Lemma whole_block_stays_free_witness :
  head after_exact_refit <> NULL
  /\ scan 8 (mem after_exact_refit) (ALIGN 8) (head after_exact_refit)
     = Some 4640
  /\ 4640 <> NULL
  /\ can_split_block (mem after_exact_refit) 4640 (ALIGN 8) = false
  /\ run 8 [Malloc 8; Malloc 8] after_exact_refit
     = Some ([wrap (4640 + HEADER_SIZE); wrap (4640 + HEADER_SIZE)],
             after_exact_refit).
Proof.
  assert (H1 : head after_exact_refit <> NULL) by (vm_compute; discriminate).
  assert (H2 : scan 8 (mem after_exact_refit) (ALIGN 8)
                    (head after_exact_refit) = Some 4640)
    by (vm_compute; reflexivity).
  assert (H3 : 4640 <> NULL) by discriminate.
  assert (H4 : can_split_block (mem after_exact_refit) 4640 (ALIGN 8) = false)
    by (vm_compute; reflexivity).
  repeat (split; [assumption|]).
  exact (proj2 (proj2 (whole_block_stays_free 8 8 _ 4640 H1 H2 H3 H4))).
Defined.

(** ** Requests near the top of [size_t] *)

(** X8: for a request whose rounded size is within [HEADER_SIZE] of
    [2^64], the sum [HEADER_SIZE + size] wraps: the first call asks the
    system for fewer bytes than one header, succeeds, and records the full
    rounded size in a block that reaches beyond the break. *)
Theorem huge_request_is_granted (fuel : nat) (s : Z) (st : heap) :
  modulus - HEADER_SIZE <= ALIGN s ->
  head st = NULL ->
  header_ok (brk st) -> brk st + HEADER_SIZE < modulus ->
  brk st + HEADER_SIZE <= limit st ->
  exists st',
    xmalloc fuel s st = Some (brk st + HEADER_SIZE, st')
    /\ get_size (mem st') (brk st) = ALIGN s
    /\ brk st' = brk st + (ALIGN s + HEADER_SIZE - modulus)
    /\ brk st' < brk st + HEADER_SIZE.
Proof.
  intros Hhuge Hh Hok Hp Hroom.
  destruct (ALIGN_bounds s) as (Hr & _).
  assert (Hw : wrap (HEADER_SIZE + ALIGN s) = ALIGN s + HEADER_SIZE - modulus).
  { unfold wrap.
    replace (HEADER_SIZE + ALIGN s)
      with (ALIGN s + HEADER_SIZE - modulus + 1 * modulus) by lia.
    rewrite Z.mod_add by (rewrite modulus_eq; lia).
    apply Z.mod_small. zlia. }
  destruct (xmalloc_seeds_chain fuel s st Hh Hok Hp) as (st' & Hx & Hsz & _).
  { rewrite Hw. zlia. }
  exists st'. split; [exact Hx|]. split; [exact Hsz|].
  assert (Hb : brk st' = brk st + wrap (HEADER_SIZE + ALIGN s)).
  { unfold xmalloc, init_heap, get_heap_mem, get_raw_heap_mem, sbrk in Hx.
    rewrite Hh in Hx. cbn [Z.eqb NULL] in Hx.
    destruct (Z.leb_spec (brk st + wrap (HEADER_SIZE + ALIGN s)) (limit st));
      [|rewrite Hw in *; zlia].
    destruct (Z.eqb_spec (brk st) SBRK_FAILED) as [E|E];
      [rewrite SBRK_FAILED_eq in E; unfold header_ok in Hok; zlia|].
    destruct (Z.eqb_spec (brk st) NULL) as [E'|E'];
      [unfold header_ok in Hok; zlia|].
    apply Z.eqb_neq in E'. rewrite E' in Hx.
    injection Hx as _ <-. reflexivity. }
  rewrite Hb, Hw. split; [reflexivity | zlia].
Qed.

Lemma huge_request_is_granted_witness :
  modulus - HEADER_SIZE <= ALIGN (modulus - 16)
  /\ head roomy = NULL
  /\ header_ok (brk roomy) /\ brk roomy + HEADER_SIZE < modulus
  /\ brk roomy + HEADER_SIZE <= limit roomy
  /\ exists st',
       xmalloc 1 (modulus - 16) roomy = Some (brk roomy + HEADER_SIZE, st')
       /\ get_size (mem st') (brk roomy) = ALIGN (modulus - 16)
       /\ brk st' = brk roomy + (ALIGN (modulus - 16) + HEADER_SIZE - modulus)
       /\ brk st' < brk roomy + HEADER_SIZE.
Proof.
  assert (H1 : modulus - HEADER_SIZE <= ALIGN (modulus - 16))
    by (vm_compute; discriminate).
  assert (H2 : head roomy = NULL) by reflexivity.
  assert (H3 : header_ok (brk roomy))
    by (split; [reflexivity | vm_compute; discriminate]).
  assert (H4 : brk roomy + HEADER_SIZE < modulus) by reflexivity.
  assert (H5 : brk roomy + HEADER_SIZE <= limit roomy)
    by (vm_compute; discriminate).
  repeat (split; [assumption|]).
  exact (huge_request_is_granted 1 (modulus - 16) roomy H1 H2 H3 H4 H5).
Defined.

(** ** Chains described block by block *)

Lemma blocks_at_seg m : forall bs pv, blocks_at m pv bs <-> seg m pv bs NULL.
Proof.
  induction bs as [|[[p sz] fr] rest IH]; intros pv; [reflexivity|].
  cbn [blocks_at seg]. rewrite IH. destruct rest; reflexivity.
Qed.

Lemma describes_seg st bs :
  describes st bs <->
  head st = first_addr bs NULL /\ tail st = last_addr bs NULL
  /\ seg (mem st) NULL bs NULL.
Proof.
  unfold describes. rewrite blocks_at_seg. destruct bs; reflexivity.
Qed.

Lemma last_cons_default (l : list Z) : forall b d,
  List.last (b :: l) d = List.last l b.
Proof.
  induction l as [|c l IH]; intros b d; [reflexivity|].
  change (List.last (b :: c :: l) d) with (List.last (c :: l) d).
  now rewrite (IH c d), (IH c b).
Qed.

Lemma last_app_cons (xs : list Z) y ys d :
  List.last (xs ++ y :: ys) d = List.last (y :: ys) d.
Proof.
  revert d. induction xs as [|x xs IH]; intros d; [reflexivity|].
  cbn [app]. rewrite last_cons_default, IH.
  now rewrite (last_cons_default ys y x), (last_cons_default ys y d).
Qed.

Lemma last_addr_app l b r d :
  last_addr (l ++ b :: r) d = last_addr (b :: r) d.
Proof.
  unfold last_addr, addrs. rewrite map_app. cbn [map]. apply last_app_cons.
Qed.

Lemma last_addr_cons b r d :
  last_addr (b :: r) d = last_addr r (block_addr b).
Proof. unfold last_addr, addrs. cbn [map]. apply last_cons_default. Qed.

Lemma seg_app m : forall l1 l2 pv nx,
  seg m pv (l1 ++ l2) nx <->
  seg m pv l1 (first_addr l2 nx) /\ seg m (last_addr l1 pv) l2 nx.
Proof.
  induction l1 as [|[[p sz] fr] rest IH]; intros l2 pv nx.
  - cbn. tauto.
  - cbn [app seg]. rewrite IH, last_addr_cons. cbn [block_addr fst].
    assert (E : first_addr (rest ++ l2) nx
                = first_addr rest (first_addr l2 nx))
      by (destruct rest; reflexivity).
    rewrite E. tauto.
Qed.

(** The four fields of the header at [b] are the same in [m'] as in [m]. *)
Lemma seg_frame m m' : forall bs pv nx,
  (forall b, In b (addrs bs) ->
     get_size m' b = get_size m b /\ get_free m' b = get_free m b
     /\ get_next m' b = get_next m b /\ get_prev m' b = get_prev m b) ->
  seg m pv bs nx -> seg m' pv bs nx.
Proof.
  induction bs as [|[[p sz] fr] rest IH]; intros pv nx Hsame Hseg; [exact I|].
  cbn [seg] in *. destruct Hseg as (Hs & Hf & Hp & Hn & Hrest).
  destruct (Hsame p (or_introl eq_refl)) as (E1 & E2 & E3 & E4).
  rewrite E1, E2, E3, E4. repeat split; try assumption.
  apply IH; [|assumption]. intros b Hb. apply Hsame. now right.
Qed.

Lemma fields_outside m m' (ws : list Z) b :
  header_ok b ->
  (forall a, Forall (fun w => a <> w) ws -> load m' a = load m a) ->
  Forall (fun w => w < b \/ b + HEADER_SIZE <= w) ws ->
  get_size m' b = get_size m b /\ get_free m' b = get_free m b
  /\ get_next m' b = get_next m b /\ get_prev m' b = get_prev m b.
Proof.
  intros Hok Hframe Hout. norm_all.
  assert (Hfield : forall off, 0 <= off < 32 ->
                     load m' (b + off) = load m (b + off)).
  { intros off Hoff. apply Hframe. revert Hout. apply List.Forall_impl.
    intros w Hw. lia. }
  rewrite !Hfield by lia. repeat split.
Qed.

Lemma apart_sym p q : apart p q -> apart q p.
Proof. unfold apart. tauto. Qed.

Lemma all_apart_app l1 : forall l2,
  all_apart (l1 ++ l2) <->
  all_apart l1 /\ all_apart l2
  /\ (forall a b, In a l1 -> In b l2 -> apart a b).
Proof.
  induction l1 as [|x l1 IH]; intros l2.
  - cbn. split; [intros H; repeat split; [exact H | contradiction] | tauto].
  - cbn [app all_apart]. rewrite IH, !List.Forall_forall. split.
    + intros (Hx & H1 & H2 & H12). repeat split; try assumption.
      * intros b Hb. apply Hx. apply in_or_app. now left.
      * intros a b [->|Ha] Hb; [apply Hx, in_or_app; now right|].
        now apply H12.
    + intros ((Hx & H1) & H2 & H12). repeat split; try assumption.
      * intros b Hb. apply in_app_or in Hb as [Hb|Hb];
          [now apply Hx | apply H12; [now left | assumption]].
      * intros a b Ha Hb. apply H12; [now right | assumption].
Qed.

Lemma addrs_app l b r :
  addrs (l ++ b :: r) = addrs l ++ block_addr b :: addrs r.
Proof. unfold addrs. now rewrite map_app. Qed.

Lemma first_addr_app l b r d :
  first_addr (l ++ b :: r) d = first_addr l (block_addr b).
Proof. destruct l; reflexivity. Qed.

(** The facts a proof about the block [b] of a well placed chain uses. *)
Lemma well_placed_around pre b post :
  well_placed (pre ++ b :: post) ->
  header_ok (block_addr b)
  /\ (forall c, In c (addrs pre) ->
        header_ok c /\ apart c (block_addr b)
        /\ forall d, In d (addrs post) -> apart c d)
  /\ (forall d, In d (addrs post) -> header_ok d /\ apart (block_addr b) d)
  /\ well_placed post.
Proof.
  unfold well_placed. rewrite addrs_app. intros (Hok & Hap).
  rewrite List.Forall_forall in Hok.
  apply all_apart_app in Hap as (_ & Hbp & Hcross).
  cbn [all_apart] in Hbp. destruct Hbp as (Hb & Hpost).
  rewrite List.Forall_forall in Hb.
  split; [apply Hok, in_or_app; right; now left|].
  split; [|split; [|split]].
  - intros c Hc. split; [apply Hok, in_or_app; now left|].
    split; [apply Hcross; [assumption | now left]|].
    intros d Hd. apply Hcross; [assumption | now right].
  - intros d Hd. split; [apply Hok, in_or_app; right; now right|].
    now apply Hb.
  - apply List.Forall_forall. intros d Hd.
    apply Hok, in_or_app. right. now right.
  - exact Hpost.
Qed.

Lemma last_addr_in bs d : bs <> [] -> In (last_addr bs d) (addrs bs).
Proof.
  intros Hne. unfold last_addr.
  assert (Hne' : addrs bs <> []) by (destruct bs; [contradiction | discriminate]).
  destruct (exists_last Hne') as (l & x & E). rewrite E.
  rewrite last_last. apply in_or_app. right. now left.
Qed.

Lemma last_addr_default bs d d' :
  bs <> [] -> last_addr bs d = last_addr bs d'.
Proof.
  intros Hne. destruct bs as [|b r]; [contradiction|].
  now rewrite !last_addr_cons.
Qed.

Lemma apart_ne p q : apart p q -> p <> q.
Proof. unfold apart, HEADER_SIZE. lia. Qed.

(** ** A release on a well placed chain *)

Lemma released_header p : header_ok p -> get_header (p + HEADER_SIZE) = p.
Proof. intros Hok. norm_all. lia. Qed.

Lemma release_refines_right st pre p sz fr n sn post' :
  describes st (pre ++ (p, sz, fr) :: (n, sn, true) :: post') ->
  well_placed (pre ++ (p, sz, fr) :: (n, sn, true) :: post') ->
  p + HEADER_SIZE < modulus ->
  describes (xfree (p + HEADER_SIZE) st)
            (pre ++ (p, merged_size sz sn, true) :: post').
Proof.
  intros Hd Hwp Hptr.
  destruct (well_placed_around _ _ _ Hwp) as (Hok & Hpre & Hpost & Hwpost).
  cbn [block_addr fst] in *.
  apply describes_seg in Hd as (Hhead & Htail & Hseg).
  apply seg_app in Hseg as (Hspre & Hsmid).
  cbn [seg first_addr block_addr fst] in Hspre, Hsmid.
  destruct Hsmid as (Hsz & Hfr & Hpv & Hnx & Hsn & Hfn & Hpn & Hnn & Hspost).
  destruct (Hpost n (or_introl eq_refl)) as (Hnok & Hnap).
  assert (Hnnok : null_or_apart (get_next (mem st) n) p).
  { rewrite Hnn. destruct post' as [|c r]; [now left|right].
    apply Hpost. right. now left. }
  assert (Hrange : HEADER_SIZE < p + HEADER_SIZE < modulus)
    by (unfold header_ok in Hok; lia).
  pose proof (release_right (p + HEADER_SIZE) st Hrange) as Hr.
  cbv zeta in Hr. rewrite (released_header p Hok), Hnx in Hr.
  specialize (Hr ltac:(destruct Hnok; unfold NULL; lia) Hfn Hnok Hnap Hnnok).
  destruct Hr as (Rf & Rs & Rn & Rp & Rnn & Rt & Rh & Rframe).
  set (st' := xfree (p + HEADER_SIZE) st) in *.
  assert (Happ : forall c, In c (addrs post') -> apart n c).
  { destruct Hwpost as (_ & Hap). cbn [addrs map all_apart] in Hap.
    destruct Hap as (Hap & _). now apply List.Forall_forall. }
  (* the words a release may have written, as a list *)
  assert (Hkept : forall c,
             header_ok c -> apart c p ->
             (forall d, first_addr post' NULL = d -> d <> NULL ->
                        header_ok d /\ apart c d) ->
             get_size (mem st') c = get_size (mem st) c
             /\ get_free (mem st') c = get_free (mem st) c
             /\ get_next (mem st') c = get_next (mem st) c
             /\ get_prev (mem st') c = get_prev (mem st) c).
  { intros c Hcok Hcap Hcnn. rewrite Hnn in Rframe.
    destruct (Z.eq_dec (first_addr post' NULL) NULL) as [E|E].
    - rewrite E in *. clear Hcnn.
      norm_all. repeat split; (rewrite Rframe; [reflexivity|try lia..]);
        now left.
    - destruct (Hcnn _ eq_refl E) as (Hdok & Hdap).
      revert Rframe Hdok Hdap. generalize (first_addr post' NULL).
      intros d Rframe Hdok Hdap.
      norm_all. repeat split; (rewrite Rframe; [reflexivity|try lia..]);
        right; lia. }
  apply describes_seg. split; [|split].
  - rewrite Rh, Hhead, !first_addr_app. reflexivity.
  - rewrite Rt, Htail, !last_addr_app, !last_addr_cons.
    cbn [block_addr fst]. destruct post' as [|c r].
    + cbn. now rewrite Z.eqb_refl.
    + assert (Hne : last_addr (c :: r) n <> n).
      { intros E. apply (apart_ne n n); [|reflexivity].
        apply Happ.
        pose proof (last_addr_in (c :: r) n ltac:(discriminate)) as Hin.
        now rewrite E in Hin. }
      apply Z.eqb_neq in Hne. rewrite Hne.
      now apply last_addr_default.
  - apply seg_app. cbn [first_addr block_addr fst]. split.
    + apply (seg_frame (mem st)); [|exact Hspre].
      intros c Hc. destruct (Hpre c Hc) as (Hcok & Hcap & Hcpost).
      apply Hkept; try assumption.
      intros d Hdeq Hdne.
      destruct post' as [|e r]; [cbn in Hdeq; congruence|].
      cbn in Hdeq. subst d. split.
      * apply Hpost. right. now left.
      * apply Hcpost. right. now left.
    + cbn [seg]. rewrite Rs, Rf, Rp, Rn, Hsz, Hsn, Hpv, Hnn.
      repeat split.
      destruct post' as [|[[c sc] fc] r]; [exact I|].
      cbn [seg first_addr block_addr fst] in *.
      destruct Hspost as (Hcs & Hcf & Hcp & Hcn & Hsr).
      destruct (Hpost c (or_intror (or_introl eq_refl))) as (Hcok & Hcap).
      rewrite Hnn in Rnn, Rframe.
      assert (Hcne : c <> NULL) by (destruct Hcok; unfold NULL; lia).
      assert (Hc3 : get_size (mem st') c = sc /\ get_free (mem st') c = fc
                    /\ get_next (mem st') c = first_addr r NULL).
      { rewrite <- Hcs, <- Hcf, <- Hcn. clear Hcs Hcf Hcn Hkept.
        norm_all. repeat split; (rewrite Rframe; [reflexivity|try lia..]);
          right; lia. }
      destruct Hc3 as (E1 & E2 & E3).
      rewrite E1, E2, E3, (Rnn Hcne). repeat split.
      apply (seg_frame (mem st)); [|exact Hsr].
      intros d Hd'.
      assert (Hdin : In d (addrs ((n, sn, true) :: (c, sc, fc) :: r)))
        by (right; right; exact Hd').
      destruct (Hpost d Hdin) as (Hdok & Hdap).
      apply Hkept; [assumption | now apply apart_sym |].
      intros e <- _. split; [assumption|].
      apply apart_sym.
      destruct Hwpost as (_ & Hap). cbn [addrs map all_apart] in Hap.
      destruct Hap as (_ & Hap & _).
      rewrite List.Forall_forall in Hap. now apply Hap.
Qed.

Lemma release_refines_left st pre' q sq p sz fr post :
  describes st (pre' ++ (q, sq, true) :: (p, sz, fr) :: post) ->
  well_placed (pre' ++ (q, sq, true) :: (p, sz, fr) :: post) ->
  p + HEADER_SIZE < modulus ->
  post = [] \/ (exists n sn r, post = (n, sn, false) :: r) ->
  describes (xfree (p + HEADER_SIZE) st)
            (pre' ++ (q, merged_size sq sz, true) :: post).
Proof.
  intros Hd Hwp Hptr Hnf.
  destruct (well_placed_around _ _ _ Hwp) as (Hqok & Hpre & Hpost & Hwpost).
  destruct (well_placed_around [] _ _ Hwpost) as (Hok & _ & Hpost2 & Hwpost2).
  cbn [block_addr fst] in *.
  destruct (Hpost p (or_introl eq_refl)) as (_ & Hqp).
  apply describes_seg in Hd as (Hhead & Htail & Hseg).
  apply seg_app in Hseg as (Hspre & Hsmid).
  cbn [seg first_addr block_addr fst] in Hspre, Hsmid.
  destruct Hsmid as (Hsq & Hfq & Hpq & Hnq & Hsz & Hfr & Hpv & Hnx & Hspost).
  assert (Hrange : HEADER_SIZE < p + HEADER_SIZE < modulus)
    by (unfold header_ok in Hok; lia).
  pose proof (release_left (p + HEADER_SIZE) st Hrange) as Hr.
  cbv zeta in Hr. rewrite (released_header p Hok), Hnx, Hpv in Hr.
  assert (Hn : first_addr post NULL = NULL
               \/ (get_free (mem st) (first_addr post NULL) = false
                   /\ header_ok (first_addr post NULL)
                   /\ apart p (first_addr post NULL)
                   /\ apart q (first_addr post NULL))).
  { destruct Hnf as [->|(n & sn & r & ->)]; [now left|right].
    cbn [seg first_addr block_addr fst] in *.
    destruct Hspost as (_ & Hfn & _).
    destruct (Hpost2 n (or_introl eq_refl)) as (Hnok & Hpn).
    destruct (Hpost n (or_intror (or_introl eq_refl))) as (_ & Hqn).
    repeat (split; [assumption|]). assumption. }
  specialize (Hr Hn ltac:(destruct Hqok; unfold NULL; lia) Hfq Hqok
                 (apart_sym _ _ Hqp)).
  destruct Hr as (_ & Rf & Rs & Rn & Rp & Rnn & Rt & Rh & Rframe).
  set (st' := xfree (p + HEADER_SIZE) st) in *.
  assert (Hkept : forall c,
             header_ok c -> apart c p -> apart c q ->
             (forall d, first_addr post NULL = d -> d <> NULL -> apart c d) ->
             get_size (mem st') c = get_size (mem st) c
             /\ get_free (mem st') c = get_free (mem st) c
             /\ get_next (mem st') c = get_next (mem st) c
             /\ get_prev (mem st') c = get_prev (mem st) c).
  { intros c Hcok Hcap Hcaq Hcnn.
    destruct Hn as [E|(_ & Hdok & _)].
    - rewrite E in *. clear Hcnn.
      norm_all. repeat split; (rewrite Rframe; [reflexivity|try lia..]);
        now left.
    - assert (E : first_addr post NULL <> NULL)
        by (destruct Hdok; unfold NULL in *; lia).
      pose proof (Hcnn _ eq_refl E) as Hdap.
      revert Rframe Hdok Hdap. generalize (first_addr post NULL).
      intros d Rframe Hdok Hdap.
      norm_all. repeat split; (rewrite Rframe; [reflexivity|try lia..]);
        right; lia. }
  apply describes_seg. split; [|split].
  - rewrite Rh, Hhead, !first_addr_app. reflexivity.
  - rewrite Rt, Htail, !last_addr_app, !last_addr_cons.
    cbn [block_addr fst]. destruct post as [|c r].
    + cbn. now rewrite Z.eqb_refl.
    + assert (Hne : last_addr (c :: r) p <> p).
      { intros E. apply (apart_ne p p); [|reflexivity].
        apply Hpost2.
        pose proof (last_addr_in (c :: r) p ltac:(discriminate)) as Hin.
        now rewrite E in Hin. }
      apply Z.eqb_neq in Hne. rewrite Hne.
      now apply last_addr_default.
  - apply seg_app. cbn [first_addr block_addr fst]. split.
    + apply (seg_frame (mem st)); [|exact Hspre].
      intros c Hc. destruct (Hpre c Hc) as (Hcok & Hcaq & Hcpost).
      apply Hkept; try assumption.
      * apply Hcpost. now left.
      * intros d Hdeq Hdne.
        destruct post as [|e r]; [cbn in Hdeq; congruence|].
        cbn in Hdeq. subst d. apply Hcpost. right. now left.
    + cbn [seg]. rewrite Rs, Rf, Rp, Rn, Hsq, Hsz, Hpq.
      repeat split.
      destruct post as [|[[c sc] fc] r]; [exact I|].
      cbn [seg first_addr block_addr fst] in *.
      destruct Hspost as (Hcs & Hcf & Hcp & Hcn & Hsr).
      destruct (Hpost2 c (or_introl eq_refl)) as (Hcok & Hpc).
      destruct (Hpost c (or_intror (or_introl eq_refl))) as (_ & Hqc).
      assert (Hcne : c <> NULL) by (destruct Hcok; unfold NULL; lia).
      assert (Hc3 : get_size (mem st') c = sc /\ get_free (mem st') c = fc
                    /\ get_next (mem st') c = first_addr r NULL).
      { rewrite <- Hcs, <- Hcf, <- Hcn. clear Hcs Hcf Hcn Hkept Hn.
        norm_all. repeat split; (rewrite Rframe; [reflexivity|try lia..]);
          right; lia. }
      destruct Hc3 as (E1 & E2 & E3).
      rewrite E1, E2, E3, (Rnn Hcne). repeat split.
      apply (seg_frame (mem st)); [|exact Hsr].
      intros d Hd'.
      destruct (Hpost2 d (or_intror Hd')) as (Hdok & Hpd).
      destruct (Hpost d (or_intror (or_intror Hd'))) as (_ & Hqd).
      apply Hkept; [assumption | now apply apart_sym | now apply apart_sym |].
      intros e <- _. apply apart_sym.
      destruct Hwpost2 as (_ & Hap). cbn [addrs map all_apart] in Hap.
      destruct Hap as (Hap & _).
      rewrite List.Forall_forall in Hap. now apply Hap.
Qed.

Lemma release_refines_neither st pre p sz fr post :
  describes st (pre ++ (p, sz, fr) :: post) ->
  well_placed (pre ++ (p, sz, fr) :: post) ->
  p + HEADER_SIZE < modulus ->
  post = [] \/ (exists n sn r, post = (n, sn, false) :: r) ->
  pre = [] \/ (exists l q sq, pre = l ++ [(q, sq, false)]) ->
  describes (xfree (p + HEADER_SIZE) st) (pre ++ (p, sz, true) :: post).
Proof.
  intros Hd Hwp Hptr Hnf Hpf.
  destruct (well_placed_around _ _ _ Hwp) as (Hok & Hpre & Hpost & Hwpost).
  cbn [block_addr fst] in *.
  apply describes_seg in Hd as (Hhead & Htail & Hseg).
  apply seg_app in Hseg as (Hspre & Hsmid).
  cbn [seg first_addr block_addr fst] in Hspre, Hsmid.
  destruct Hsmid as (Hsz & Hfr & Hpv & Hnx & Hspost).
  assert (Hrange : HEADER_SIZE < p + HEADER_SIZE < modulus)
    by (unfold header_ok in Hok; lia).
  pose proof (release_neither (p + HEADER_SIZE) st Hrange) as Hr.
  cbv zeta in Hr. rewrite (released_header p Hok), Hnx, Hpv in Hr.
  assert (Hn : first_addr post NULL = NULL
               \/ (get_free (mem st) (first_addr post NULL) = false
                   /\ header_ok (first_addr post NULL)
                   /\ apart p (first_addr post NULL))).
  { destruct Hnf as [->|(n & sn & r & ->)]; [now left|right].
    cbn [seg first_addr block_addr fst] in *.
    destruct Hspost as (_ & Hfn & _).
    destruct (Hpost n (or_introl eq_refl)) as (Hnok & Hpn).
    repeat (split; [assumption|]). assumption. }
  assert (Hp : last_addr pre NULL = NULL
               \/ (get_free (mem st) (last_addr pre NULL) = false
                   /\ header_ok (last_addr pre NULL)
                   /\ apart p (last_addr pre NULL))).
  { destruct Hpf as [->|(l & q & sq & ->)]; [now left|right].
    rewrite last_addr_app in *. cbn [last_addr addrs map List.last] in *.
    cbn [block_addr fst] in *.
    apply seg_app in Hspre as (_ & Hq). cbn [seg] in Hq.
    destruct Hq as (_ & Hfq & _).
    destruct (Hpre q) as (Hqok & Hqp & _).
    { rewrite addrs_app. apply in_or_app. right. now left. }
    repeat (split; [assumption|]). now apply apart_sym. }
  specialize (Hr Hn Hp).
  destruct Hr as (Rst & Rf & Rs & Rn & Rp & Rframe).
  set (st' := xfree (p + HEADER_SIZE) st) in *.
  assert (Hkept : forall c,
             header_ok c -> apart c p ->
             get_size (mem st') c = get_size (mem st) c
             /\ get_free (mem st') c = get_free (mem st) c
             /\ get_next (mem st') c = get_next (mem st) c
             /\ get_prev (mem st') c = get_prev (mem st) c).
  { intros c Hcok Hcap. clear Hn Hp.
    norm_all. repeat split; (rewrite Rframe; [reflexivity|lia]). }
  apply describes_seg. split; [|split].
  - rewrite Rst. cbn [head with_mem]. rewrite Hhead, !first_addr_app.
    reflexivity.
  - rewrite Rst. cbn [tail with_mem].
    rewrite Htail, !last_addr_app, !last_addr_cons. reflexivity.
  - apply seg_app. cbn [first_addr block_addr fst]. split.
    + apply (seg_frame (mem st)); [|exact Hspre].
      intros c Hc. destruct (Hpre c Hc) as (Hcok & Hcap & _).
      now apply Hkept.
    + cbn [seg]. rewrite Rs, Rf, Rp, Rn, Hsz. repeat split.
      apply (seg_frame (mem st)); [|exact Hspost].
      intros d Hd'. destruct (Hpost d Hd') as (Hdok & Hpd).
      apply Hkept; [assumption | now apply apart_sym].
Qed.

(** X9: on a chain of non-overlapping headers, [xfree] does to the
    memory exactly what [release_in] does to the list of blocks: the
    released block absorbs a free right neighbour; otherwise a free left
    neighbour absorbs it; otherwise it only turns free.  All other blocks
    keep their size, flag and links, and [head] and [tail] follow. *)
Theorem release_refines (st : heap) (rpre : list (Z * Z * bool))
    (p sz : Z) (fr : bool) (post : list (Z * Z * bool)) :
  describes st (rev rpre ++ (p, sz, fr) :: post) ->
  well_placed (rev rpre ++ (p, sz, fr) :: post) ->
  p + HEADER_SIZE < modulus ->
  describes (xfree (p + HEADER_SIZE) st) (release_in rpre p sz post).
Proof.
  intros Hd Hwp Hptr. unfold release_in.
  assert (Hleft_or_none :
            post = [] \/ (exists n sn r, post = (n, sn, false) :: r) ->
            describes (xfree (p + HEADER_SIZE) st)
              match rpre with
              | (q, sq, true) :: rpre' =>
                  rev rpre' ++ (q, merged_size sq sz, true) :: post
              | _ => rev rpre ++ (p, sz, true) :: post
              end).
  { intros Hnf. destruct rpre as [|[[q sq] [|]] rpre'].
    - apply (release_refines_neither st [] p sz fr post);
        try assumption. now left.
    - cbn [rev] in Hd, Hwp. rewrite <- app_assoc in Hd, Hwp.
      now apply (release_refines_left st (rev rpre') q sq p sz fr post).
    - apply (release_refines_neither st _ p sz fr post); try assumption.
      right. exists (rev rpre'), q, sq. reflexivity. }
  destruct post as [|[[n sn] [|]] post'].
  - apply Hleft_or_none. now left.
  - now apply (release_refines_right st (rev rpre) p sz fr n sn post').
  - apply Hleft_or_none. right. now exists n, sn, post'.
Qed.

(** The middle block of three released between two free neighbours. *)
Lemma release_refines_witness :
  describes outer_released
            (rev [(4096, 16, true)] ++ (4144, 24, false) :: [(4200, 32, true)])
  /\ well_placed
       (rev [(4096, 16, true)] ++ (4144, 24, false) :: [(4200, 32, true)])
  /\ 4144 + HEADER_SIZE < modulus
  /\ describes (xfree (4144 + HEADER_SIZE) outer_released)
               [(4096, 16, true); (4144, 88, true)].
Proof.
  assert (H1 : describes outer_released
                 (rev [(4096, 16, true)]
                  ++ (4144, 24, false) :: [(4200, 32, true)]))
    by (vm_compute; repeat split).
  assert (H2 : well_placed
                 (rev [(4096, 16, true)]
                  ++ (4144, 24, false) :: [(4200, 32, true)])).
  { split; cbn; repeat constructor; unfold apart; vm_compute;
      try discriminate; try reflexivity;
      left; discriminate. }
  assert (H3 : 4144 + HEADER_SIZE < modulus) by reflexivity.
  repeat (split; [assumption|]).
  exact (release_refines outer_released [(4096, 16, true)] 4144 24 false
           [(4200, 32, true)] H1 H2 H3).
Defined.

(** ** An allocation on a well placed chain *)

Lemma scan_described m size : forall bs pv fuel,
  seg m pv bs NULL ->
  Forall header_ok (addrs bs) ->
  (length bs < fuel)%nat ->
  scan fuel m size (first_addr bs NULL) = Some (chosen_block size NULL bs).
Proof.
  induction bs as [|[[p sz] fr] rest IH]; intros pv fuel Hseg Hok Hlen.
  - destruct fuel; [cbn in Hlen; lia | reflexivity].
  - destruct fuel; [cbn in Hlen; lia|].
    cbn [seg] in Hseg. destruct Hseg as (Hs & Hf & _ & Hn & Hrest).
    cbn [addrs map block_addr fst] in Hok.
    apply List.Forall_cons_iff in Hok as [Hp Hok'].
    cbn [first_addr block_addr fst chosen_block].
    unfold block_fits. cbn [fst snd scan].
    assert (Hpn : (p =? NULL) = false)
      by (apply Z.eqb_neq; destruct Hp; unfold NULL; lia).
    rewrite Hpn, Hs. fold (get_free m p). rewrite Hf. cbn [negb andb].
    destruct ((size <=? sz) && fr); cbn [negb]; [reflexivity|].
    rewrite Hn. apply (IH p); [assumption | assumption | cbn in Hlen; lia].
Qed.

Lemma chosen_none size new bs :
  Forall (fun b => block_fits size b = false) bs ->
  chosen_block size new bs = new
  /\ alloc_blocks size new bs = bs ++ [(new, size, false)].
Proof.
  induction 1 as [|[[p sz] fr] rest Hb Hrest [IH1 IH2]]; [now split|].
  cbn [chosen_block alloc_blocks app]. rewrite Hb, IH1, IH2. now split.
Qed.

Lemma alloc_cases size new bs :
  Forall (fun b => block_fits size b = false) bs
  \/ exists pre p sz post,
       bs = pre ++ (p, sz, true) :: post
       /\ Forall (fun b => block_fits size b = false) pre
       /\ size <= sz
       /\ (forall d, chosen_block size d bs = p)
       /\ alloc_blocks size new bs
          = pre ++ (if size <? wrap (sz + HEADER_SIZE)
                    then [(p, size, false);
                          (rhs_address p size,
                           wrap (sz - size - HEADER_SIZE), true)]
                    else [(p, sz, true)]) ++ post.
Proof.
  induction bs as [|[[p sz] fr] rest IH]; [left; constructor|].
  destruct (block_fits size (p, sz, fr)) eqn:Hfit.
  - right. exists [], p, sz, rest.
    pose proof Hfit as Hfit'. unfold block_fits in Hfit'. cbn [fst snd] in Hfit'.
    apply andb_true_iff in Hfit' as [Hle ->]. apply Z.leb_le in Hle.
    cbn [chosen_block alloc_blocks app]. rewrite Hfit. cbn [block_addr fst].
    repeat split; try constructor; try assumption.
    destruct (size <? wrap (sz + HEADER_SIZE)); reflexivity.
  - destruct IH as [IH|(pre & q & sq & post & -> & Hpre & Hle & Hch & Hal)].
    + left. now constructor.
    + right. exists ((p, sz, fr) :: pre), q, sq, post.
      cbn [chosen_block alloc_blocks app]. rewrite Hfit, Hal.
      repeat split; try assumption; now constructor.
Qed.

Lemma append_refines fuel s st bs :
  describes st bs ->
  well_placed (bs ++ [(brk st, ALIGN s, false)]) ->
  Forall (fun b => block_fits (ALIGN s) b = false) bs ->
  (length bs < fuel)%nat ->
  brk st + HEADER_SIZE < modulus ->
  brk st + wrap (HEADER_SIZE + ALIGN s) <= limit st ->
  exists st',
    xmalloc fuel s st = Some (brk st + HEADER_SIZE, st')
    /\ describes st' (bs ++ [(brk st, ALIGN s, false)])
    /\ brk st' = brk st + wrap (HEADER_SIZE + ALIGN s).
Proof.
  intros Hd Hwp Hnofit Hlen Hptr Hroom.
  destruct (well_placed_around _ _ _ Hwp) as (Hbok & Hpre & _ & _).
  cbn [block_addr fst] in *.
  apply describes_seg in Hd as (Hhead & Htail & Hseg).
  assert (Hoks : Forall header_ok (addrs bs)).
  { apply List.Forall_forall. intros c Hc. now apply Hpre. }
  pose proof (scan_described (mem st) (ALIGN s) bs NULL fuel Hseg Hoks Hlen)
    as Hscan.
  rewrite (proj1 (chosen_none _ NULL _ Hnofit)), <- Hhead in Hscan.
  unfold xmalloc. revert Hroom Hscan Hseg Hwp Hnofit.
  generalize (ALIGN s) as size. intros size Hroom Hscan Hseg Hwp Hnofit.
  destruct bs as [|b0 r] using rev_ind.
  - (* the chain is seeded *)
    cbn in Hhead, Htail. clear Hscan.
    destruct st as [m h t b l]. cbn [mem head tail brk limit] in *. subst h t.
    cbn [head]. norm_all.
    eexists. split; [exec_goal; reflexivity|]. split; [|reflexivity].
    apply describes_seg. cbn [first_addr last_addr addrs map List.last seg
                                block_addr fst mem head tail app].
    repeat split; exec_goal; fin.
  - (* a block is appended after the tail *)
    clear IHr. destruct b0 as [[t szt] frt].
    rewrite last_addr_app in Htail. cbn in Htail.
    rewrite first_addr_app in Hhead.
    apply seg_app in Hseg as (Hsl & Hst).
    cbn [seg first_addr block_addr fst] in Hsl, Hst.
    destruct Hst as (Hts & Htf & Htp & Htn & _).
    destruct (Hpre t) as (Htok & Htap & _).
    { rewrite addrs_app. apply in_or_app. right. now left. }
    assert (Hhne : head st <> NULL).
    { rewrite Hhead. destruct r as [|c r']; cbn [first_addr block_addr fst].
      - destruct Htok. unfold NULL. lia.
      - destruct (Hpre (block_addr c)) as ((Hc & _) & _);
          [rewrite addrs_app; apply in_or_app; left; now left|].
        unfold NULL. lia. }
    unfold search_free_list. rewrite Hscan.
    apply Z.eqb_neq in Hhne. rewrite Hhne. cbn [Z.eqb NULL].
    destruct st as [m h tl b l]. cbn [mem head tail brk limit] in *.
    subst tl. clear Hscan Hhne.
    rewrite <- app_assoc in Hwp |- *. cbn [app] in Hwp |- *.
    destruct (well_placed_around r _ _ Hwp) as (_ & Hr & Hpost & _).
    cbn [block_addr fst] in *.
    destruct (Hpost b (or_introl eq_refl)) as (_ & Htb).
    norm_all. eexists. split; [exec_goal; reflexivity|].
    split; [|reflexivity].
    apply describes_seg. split; [|split].
    + cbn [head]. now rewrite first_addr_app.
    + cbn [tail]. rewrite last_addr_app. reflexivity.
    + cbn [mem]. apply seg_app. split.
      * apply (seg_frame m); [|exact Hsl].
        intros c Hc. destruct (Hr c Hc) as (Hcok & Hct & Hcb).
        specialize (Hcb b (or_introl eq_refl)). clear Hr Hpre Hpost.
        norm_all. repeat split; exec_goal; fin.
      * cbn [seg first_addr block_addr fst]. clear Hr Hpre Hpost.
        norm_all. repeat split; exec_goal; fin.
Qed.

Lemma chosen_found size d pre p sz post :
  Forall (fun b => block_fits size b = false) pre ->
  size <= sz ->
  chosen_block size d (pre ++ (p, sz, true) :: post) = p.
Proof.
  intros Hpre Hle. induction Hpre as [|b pre Hb _ IH].
  - cbn. unfold block_fits. cbn [fst snd].
    apply Z.leb_le in Hle. now rewrite Hle.
  - cbn [app chosen_block]. now rewrite Hb.
Qed.

Lemma split_refines fuel s st pre p sz post :
  describes st (pre ++ (p, sz, true) :: post) ->
  well_placed (pre ++ (p, ALIGN s, false)
                   :: (rhs_address p (ALIGN s),
                       wrap (sz - ALIGN s - HEADER_SIZE), true) :: post) ->
  Forall (fun b => block_fits (ALIGN s) b = false) pre ->
  ALIGN s <= sz -> ALIGN s < wrap (sz + HEADER_SIZE) ->
  (length (pre ++ (p, sz, true) :: post) < fuel)%nat ->
  p + HEADER_SIZE < modulus ->
  exists st',
    xmalloc fuel s st = Some (p + HEADER_SIZE, st')
    /\ describes st' (pre ++ (p, ALIGN s, false)
                          :: (rhs_address p (ALIGN s),
                              wrap (sz - ALIGN s - HEADER_SIZE), true)
                          :: post)
    /\ brk st' = brk st.
Proof.
  intros Hd Hwp Hnofit Hle Hcan Hlen Hptr.
  destruct (well_placed_around _ _ _ Hwp) as (Hpok & Hpre & Hpost & Hwpost).
  destruct (well_placed_around [] _ _ Hwpost) as (Hrok & _ & Hpost2 & Hwpost2).
  cbn [block_addr fst] in *.
  destruct (Hpost _ (or_introl eq_refl)) as (_ & Hpr).
  cbn [block_addr fst] in Hpr.
  apply describes_seg in Hd as (Hhead & Htail & Hseg).
  assert (Hoks : Forall header_ok (addrs (pre ++ (p, sz, true) :: post))).
  { apply List.Forall_forall. intros c Hc. rewrite addrs_app in Hc.
    apply in_app_or in Hc as [Hc|[<-|Hc]];
      [now apply Hpre | exact Hpok | apply Hpost; now right]. }
  pose proof (scan_described (mem st) (ALIGN s) _ NULL fuel Hseg Hoks Hlen)
    as Hscan.
  rewrite (chosen_found _ _ _ _ _ _ Hnofit Hle), <- Hhead in Hscan.
  apply seg_app in Hseg as (Hspre & Hsmid).
  cbn [seg first_addr block_addr fst] in Hspre, Hsmid.
  destruct Hsmid as (Hsz & Hfr & Hpv & Hnx & Hspost).
  assert (Hhne : head st <> NULL).
  { rewrite Hhead, first_addr_app.
    destruct pre as [|c r']; cbn [first_addr block_addr fst].
    - destruct Hpok. unfold NULL. lia.
    - destruct (Hpre (block_addr c)) as ((Hc & _) & _); [now left|].
      unfold NULL. lia. }
  assert (Hpne : p <> NULL) by (destruct Hpok; unfold NULL; lia).
  unfold xmalloc, search_free_list. rewrite Hscan.
  apply Z.eqb_neq in Hhne, Hpne. rewrite Hhne, Hpne.
  unfold can_split_block. rewrite Hsz.
  apply Z.ltb_lt in Hcan. rewrite Hcan.
  cbn [split_block]. rewrite Hpne. unfold rhs_size. rewrite Hsz.
  clear Hscan Hhne Hcan Hnofit Hlen Hoks.
  revert Hle Hwp Hpre Hpost Hwpost Hrok Hpost2 Hpr.
  generalize (rhs_address p (ALIGN s)) as r. generalize (ALIGN s) as size.
  intros size r Hle Hwp Hpre Hpost Hwpost Hrok Hpost2 Hpr.
  eexists. split; [rewrite wrap_small by (unfold header_ok in Hpok; zlia);
                   reflexivity|].
  split; [|reflexivity].
  apply describes_seg. cbn [head tail mem]. split; [|split].
  - rewrite Hhead, !first_addr_app. reflexivity.
  - rewrite Htail, !last_addr_app, !last_addr_cons. cbn [block_addr fst].
    destruct post as [|c post'].
    + cbn. now rewrite Z.eqb_refl.
    + assert (Hne : p <> last_addr (c :: post') p).
      { intros E. apply (apart_ne p p); [|reflexivity].
        apply Hpost. right.
        pose proof (last_addr_in (c :: post') p ltac:(discriminate)) as Hin.
        now rewrite <- E in Hin. }
      apply Z.eqb_neq in Hne. rewrite Hne.
      now apply last_addr_default.
  - remember (first_addr post NULL) as n eqn:En.
    assert (Hn : n = NULL
                 \/ (header_ok n /\ apart p n /\ apart r n
                     /\ exists sn fn post', post = (n, sn, fn) :: post')).
    { subst n. destruct post as [|[[c sc] fc] post']; [now left|right].
      cbn [first_addr block_addr fst] in *.
      destruct (Hpost c (or_intror (or_introl eq_refl))) as (Hcok & Hpc).
      destruct (Hpost2 c (or_introl eq_refl)) as (_ & Hrc).
      repeat (split; [assumption|]). now exists sc, fc, post'. }
    apply seg_app. cbn [first_addr block_addr fst]. split.
    + apply (seg_frame (mem st)); [|exact Hspre].
      intros c Hc. destruct (Hpre c Hc) as (Hcok & Hcp & Hcpost).
      pose proof (Hcpost r (or_introl eq_refl)) as Hcr.
      assert (Hcn : n = NULL \/ apart c n).
      { destruct Hn as [Hn|(_ & _ & _ & sn & fn & post' & ->)];
          [now left|right].
        apply Hcpost. right. now left. }
      clear Hpre Hpost Hpost2 Hcpost Hspre Hspost Hwp Hwpost Hwpost2.
      clear En.
      destruct Hn as [Hn|(Hnok & Hpn & Hrn & _)];
        destruct Hcn as [Hcn|Hcn];
        norm_all; repeat split; exec_goal; fin.
    + clear Hn. destruct post as [|[[c sc] fc] post'].
      * cbn [seg first_addr block_addr fst] in *. subst n.
        clear Hpre Hpost Hpost2 Hspre Hwp Hwpost Hwpost2.
        norm_all. repeat split; exec_goal; fin.
      * cbn [seg first_addr block_addr fst] in *. subst n.
        destruct Hspost as (Hcs & Hcf & Hcp & Hcn & Hsr).
        destruct (Hpost c (or_intror (or_introl eq_refl))) as (Hcok & Hpc).
        destruct (Hpost2 c (or_introl eq_refl)) as (_ & Hrc).
        assert (Hmid : forall d, In d (addrs post') ->
                         header_ok d /\ apart p d /\ apart r d
                         /\ apart c d).
        { intros d Hd'.
          destruct (Hpost d (or_intror (or_intror Hd'))) as (Hdok & Hpd).
          destruct (Hpost2 d (or_intror Hd')) as (_ & Hrd).
          repeat (split; [assumption|]).
          destruct Hwpost2 as (_ & Hap). cbn [addrs map all_apart] in Hap.
          destruct Hap as (Hap & _).
          rewrite List.Forall_forall in Hap. now apply Hap. }
        clear Hpre Hpost Hpost2 Hspre Hwp Hwpost Hwpost2.
        repeat (split; [revert Hmid Hsr; norm_all; intros Hmid Hsr;
                        exec_goal; fin|]).
        apply (seg_frame (mem st)); [|exact Hsr].
        intros d Hd'. destruct (Hmid d Hd') as (Hdok & Hpd & Hrd & Hcd).
        clear Hmid Hsr.
        norm_all. repeat split; exec_goal; fin.
Qed.

Lemma allocation_frame_whole fuel s st pre p sz post :
  describes st (pre ++ (p, sz, true) :: post) ->
  well_placed (pre ++ (p, sz, true) :: post) ->
  Forall (fun b => block_fits (ALIGN s) b = false) pre ->
  ALIGN s <= sz -> wrap (sz + HEADER_SIZE) <= ALIGN s ->
  (length (pre ++ (p, sz, true) :: post) < fuel)%nat ->
  xmalloc fuel s st = Some (wrap (p + HEADER_SIZE), st).
Proof.
  intros Hd Hwp Hpre Hle Hcan Hlen.
  destruct (well_placed_around _ _ _ Hwp) as (Hpok & Hpre' & Hpost & _).
  cbn [block_addr fst] in *.
  apply describes_seg in Hd as (Hhead & Htail & Hseg).
  assert (Hoks : Forall header_ok (addrs (pre ++ (p, sz, true) :: post))).
  { apply List.Forall_forall. intros c Hc. rewrite addrs_app in Hc.
    apply in_app_or in Hc. cbn [In block_addr fst] in Hc.
    destruct Hc as [Hc|[Hc|Hc]];
      [now apply Hpre' | subst c; exact Hpok | now apply Hpost]. }
  pose proof (scan_described (mem st) (ALIGN s) _ NULL fuel Hseg Hoks Hlen)
    as Hscan.
  rewrite (chosen_found _ _ _ _ _ _ Hpre Hle), <- Hhead in Hscan.
  apply seg_app in Hseg as (_ & Hsmid).
  cbn [seg] in Hsmid. destruct Hsmid as (Hsz & _).
  assert (Hhne : head st <> NULL).
  { rewrite Hhead, first_addr_app.
    destruct pre as [|c r']; cbn [first_addr block_addr fst].
    - destruct Hpok. unfold NULL. lia.
    - destruct (Hpre' (block_addr c)) as ((Hc & _) & _); [now left|].
      unfold NULL. lia. }
  assert (Hpne : p <> NULL) by (destruct Hpok; unfold NULL; lia).
  assert (Hno : can_split_block (mem st) p (ALIGN s) = false).
  { unfold can_split_block. rewrite Hsz. now apply Z.ltb_ge. }
  now destruct (xmalloc_whole fuel s st p Hhne Hscan Hpne Hno) as (Hx & _).
Qed.

(** ** Allocation on the list of blocks *)

Lemma alloc_break_none size new bs :
  Forall (fun b => block_fits size b = false) bs ->
  alloc_break size new bs = new + wrap (HEADER_SIZE + size).
Proof.
  intros H. unfold alloc_break.
  replace (forallb (fun b => negb (block_fits size b)) bs) with true;
    [reflexivity|].
  symmetry. apply forallb_forall. intros b Hb.
  rewrite List.Forall_forall in H. now rewrite (H b Hb).
Qed.

Lemma alloc_break_found size new pre p sz post :
  size <= sz ->
  alloc_break size new (pre ++ (p, sz, true) :: post) = new.
Proof.
  intros Hle. unfold alloc_break.
  rewrite forallb_app. cbn [forallb]. unfold block_fits at 2.
  cbn [fst snd]. apply Z.leb_le in Hle. rewrite Hle. cbn.
  now rewrite andb_false_r.
Qed.

(** X10: on a chain of non-overlapping headers, [xmalloc] does to the
    memory exactly what [alloc_blocks] does to the list of blocks and
    returns the payload of [chosen_block], provided the headers of the list
    [alloc_blocks] gives again do not overlap and lie in the memory
    obtained from [sbrk], between the first header and the break the call
    leaves.  The first free block that is large enough is split in two, or
    handed out whole when it fails the split test; when no block fits and
    the system grants the extension, a new block is appended at the break,
    which moves as [alloc_break] says.  The blocks not involved keep their
    size, flag and links.  Where the header split off is put, at
    [rhs_address], decides whether the proviso holds. *)
Theorem allocation_refines (fuel : nat) (s : Z) (st : heap)
    (bs : list (Z * Z * bool)) :
  describes st bs ->
  well_placed bs ->
  well_placed (alloc_blocks (ALIGN s) (brk st) bs) ->
  in_heap (alloc_break (ALIGN s) (brk st) bs)
          (alloc_blocks (ALIGN s) (brk st) bs) ->
  (length bs < fuel)%nat ->
  chosen_block (ALIGN s) (brk st) bs + HEADER_SIZE < modulus ->
  (Forall (fun b => block_fits (ALIGN s) b = false) bs ->
   brk st + wrap (HEADER_SIZE + ALIGN s) <= limit st) ->
  exists st',
    xmalloc fuel s st
    = Some (chosen_block (ALIGN s) (brk st) bs + HEADER_SIZE, st')
    /\ describes st' (alloc_blocks (ALIGN s) (brk st) bs)
    /\ brk st' = alloc_break (ALIGN s) (brk st) bs.
Proof.
  intros Hd Hwp Hwp' _ Hlen Hptr Hroom.
  destruct (alloc_cases (ALIGN s) (brk st) bs)
    as [Hnone|(pre & p & sz & post & -> & Hpre & Hle & Hch & Hal)].
  - destruct (chosen_none _ (brk st) _ Hnone) as (Hc & Ha).
    rewrite (alloc_break_none _ _ _ Hnone).
    rewrite Hc, Ha in *.
    destruct (append_refines fuel s st bs Hd Hwp' Hnone Hlen Hptr
                (Hroom Hnone)) as (st' & Hx & Hd' & Hb).
    now exists st'.
  - rewrite (alloc_break_found _ _ _ _ _ _ Hle).
    rewrite Hch, Hal in *.
    destruct (Z.ltb_spec (ALIGN s) (wrap (sz + HEADER_SIZE))) as [Hcan|Hcan].
    + cbn [app] in *.
      destruct (split_refines fuel s st pre p sz post Hd Hwp' Hpre Hle Hcan
                  Hlen Hptr) as (st' & Hx & Hd' & Hb).
      now exists st'.
    + cbn [app] in *. exists st. split; [|split; [exact Hd | reflexivity]].
      rewrite (allocation_frame_whole fuel s st pre p sz post Hd Hwp Hpre
                 Hle Hcan Hlen).
      f_equal. f_equal. apply wrap_small.
      destruct (well_placed_around _ _ _ Hwp) as (Hpok & _).
      cbn [block_addr fst] in Hpok. unfold header_ok in Hpok. zlia.
Qed.

(** A released block of 600 bytes, of which 8 are requested: the header
    split off at 4384 lies below the break at 4728. *)
Lemma allocation_refines_witness :
  describes one_wide_block [(4096, 600, true)]
  /\ well_placed [(4096, 600, true)]
  /\ well_placed (alloc_blocks (ALIGN 8) (brk one_wide_block)
                               [(4096, 600, true)])
  /\ in_heap (alloc_break (ALIGN 8) (brk one_wide_block) [(4096, 600, true)])
             (alloc_blocks (ALIGN 8) (brk one_wide_block)
                           [(4096, 600, true)])
  /\ (length [(4096, 600, true)] < 2)%nat
  /\ chosen_block (ALIGN 8) (brk one_wide_block) [(4096, 600, true)]
     + HEADER_SIZE < modulus
  /\ exists st',
       xmalloc 2 8 one_wide_block = Some (4096 + HEADER_SIZE, st')
       /\ describes st' [(4096, 8, false); (4384, 560, true)]
       /\ brk st' = 4728.
Proof.
  assert (H1 : describes one_wide_block [(4096, 600, true)])
    by (vm_compute; repeat split).
  assert (H2 : well_placed [(4096, 600, true)]).
  { split; cbn; repeat constructor. vm_compute. discriminate. }
  assert (H3 : well_placed (alloc_blocks (ALIGN 8) (brk one_wide_block)
                                         [(4096, 600, true)])).
  { split; cbn; repeat constructor; vm_compute; try discriminate;
      try reflexivity. }
  assert (H4 : in_heap (alloc_break (ALIGN 8) (brk one_wide_block)
                                    [(4096, 600, true)])
                       (alloc_blocks (ALIGN 8) (brk one_wide_block)
                                     [(4096, 600, true)])).
  { unfold in_heap. cbn. repeat constructor; vm_compute; discriminate. }
  assert (H5 : (length [(4096, 600, true)] < 2)%nat) by (simpl; lia).
  assert (H6 : chosen_block (ALIGN 8) (brk one_wide_block)
                            [(4096, 600, true)]
               + HEADER_SIZE < modulus) by reflexivity.
  repeat (split; [assumption|]).
  apply (allocation_refines 2 8 one_wide_block _ H1 H2 H3 H4 H5 H6).
  intros Hno. apply List.Forall_inv in Hno. discriminate Hno.
Defined.

(** ** The self-test *)

Lemma bind_xmalloc {B} fuel s st a st1 (k : Z -> step B) :
  xmalloc fuel s st = Some (a, st1) ->
  bind (call_xmalloc fuel s) k st = k a st1.
Proof. intros H. unfold bind, call_xmalloc. now rewrite H. Qed.

Lemma bind_assert {B} e st (k : unit -> step B) :
  e st = true -> bind (assert e) k st = k tt st.
Proof. intros H. unfold bind, assert. now rewrite H. Qed.

Lemma bind_assert_len {B} fuel n st (k : unit -> step B) :
  free_list_len fuel st = Some n -> bind (assert_len fuel n) k st = k tt st.
Proof.
  intros H. unfold bind, assert_len. now rewrite H, Nat.eqb_refl.
Qed.

Lemma bind_xfree {B} ptr st (k : unit -> step B) :
  bind (call_xfree ptr) k st = k tt (xfree ptr st).
Proof. reflexivity. Qed.

Lemma size_is_true h v st : get_size (mem st) h = v -> size_is h v st = true.
Proof. intros H. unfold size_is. now apply Z.eqb_eq. Qed.

Lemma free_is_true h b st : get_free (mem st) h = b -> free_is h b st = true.
Proof. intros H. unfold free_is. rewrite H. apply eqb_reflx. Qed.

Section SelfTest.
Variables base lim : Z.
Hypothesis Hbase : 0 < base.
Hypothesis Hroom : base + 168 <= lim.
Hypothesis Hlim : lim < modulus.

Lemma st_free2_flag st :
  describes st [(base, 16, true); (base + 48, 24, false);
                (base + 104, 32, false)] ->
  get_free (mem (xfree (base + 80) st)) (base + 48) = true.
Proof.
  intros Hd. open_state st Hd.
  rewrite xfree_left; [|zlia|right| |];
    [exec'; reflexivity | exec'; try reflexivity; try zlia ..].
Qed.

Lemma st_free3_flag st :
  describes st [(base, 72, true); (base + 104, 32, false)] ->
  get_free (mem (xfree (base + 136) st)) (base + 104) = true.
Proof.
  intros Hd. open_state st Hd.
  rewrite xfree_left; [|zlia|left| |];
    [exec'; reflexivity | exec'; try reflexivity; try zlia ..].
Qed.
Lemma rt_malloc3_break st fuel :
  brk st = base + 104 -> limit st = lim ->
  describes st [(base, 16, false); (base + 48, 24, false)] ->
  exists st',
    xmalloc (S (S (S fuel))) 30 st = Some (base + 136, st')
    /\ brk st' = base + 168
    /\ describes st' [(base, 16, false); (base + 48, 24, false);
                       (base + 104, 32, false)].
Proof.
  intros Hb Hl Hd. open_state st Hd.
  eexists. split; [exec'; same_state|]. split; [cbn [brk]; zlia|].
  show_state.
Qed.
End SelfTest.

(** X11: the self-test of [main] passes every [assert] and returns 0 on
    every process that grants the 168 bytes it asks for, whatever the
    initial memory holds and wherever the break starts.  Memory is flat
    here, so a store past the break is a store like any other: the header
    split off by the last call lies 544 bytes past the first one, beyond
    the break at 168 bytes. *)
Theorem main_passes (m : gmap Z Z) (base lim : Z) (fuel : nat) :
  0 < base -> base + 168 <= lim -> lim < modulus ->
  base + 576 <= modulus -> (3 < fuel)%nat ->
  exists st',
    main fuel (fresh m base lim) = Some (Some (0, st'))
    /\ describes st' [(base, 16, false); (base + 544, 88, true)]
    /\ brk st' = base + 168.
Proof.
  intros Hbase Hroom Hlim Htop Hfuel.
  destruct fuel as [|[|[|[|fuel]]]]; try lia.
  destruct (rt_malloc1 base lim Hbase Hroom Hlim m (4 + fuel))
    as (s1 & E1 & B1 & L1 & D1).
  destruct (rt_malloc2 base lim Hbase Hroom Hlim s1 (2 + fuel) B1 L1 D1)
    as (s2 & E2 & B2 & L2 & D2).
  destruct (rt_malloc3_break base lim Hbase Hroom Hlim s2 (1 + fuel) B2 L2 D2)
    as (s3 & E3 & B3 & D3).
  pose proof (rt_free1 base lim Hbase Hroom Hlim s3 D3) as D4.
  pose proof (rt_free2 base lim Hbase Hroom Hlim _ D4) as D5.
  pose proof (rt_free3 base lim Hbase Hroom Hlim _ D5) as D6.
  pose proof (st_free2_flag base lim Hbase Hroom Hlim _ D4) as F5.
  pose proof (st_free3_flag base lim Hbase Hroom Hlim _ D5) as F6.
  cbn [Nat.add] in *.
  set (s4 := xfree (base + 32) s3) in *.
  set (s5 := xfree (base + 80) s4) in *.
  set (s6 := xfree (base + 136) s5) in *.
  assert (B6 : brk s6 = base + 168).
  { subst s6 s5 s4.
    rewrite !(proj1 (xfree_globals _ _)). exact B3. }
  assert (Hh1 : get_header (base + 32) = base)
    by (apply released_header; unfold header_ok; zlia).
  assert (Hh2 : get_header (base + 80) = base + 48).
  { replace (base + 80) with (base + 48 + HEADER_SIZE) by zlia.
    apply released_header. unfold header_ok. zlia. }
  assert (Hh3 : get_header (base + 136) = base + 104).
  { replace (base + 136) with (base + 104 + HEADER_SIZE) by zlia.
    apply released_header. unfold header_ok. zlia. }
  (* the last call splits the single block *)
  assert (Hrhs : rhs_address base (ALIGN 10) = base + 544).
  { change (ALIGN 10) with 16. rewrite rhs_address_in_range by zlia. zlia. }
  destruct (split_refines (4 + fuel) 10 s6 [] base 136 []) as (s7 & E7 & D7 & B7).
  { exact D6. }
  { rewrite Hrhs. change (ALIGN 10) with 16.
    split; cbn [app addrs map block_addr fst all_apart];
      repeat constructor; unfold apart; zlia. }
  { constructor. }
  { change (ALIGN 10) with 16. lia. }
  { change (ALIGN 10) with 16. rewrite wrap_small by zlia. zlia. }
  { cbn. lia. }
  { zlia. }
  rewrite Hrhs in D7. change (ALIGN 10) with 16 in D7.
  change (wrap (136 - 16 - HEADER_SIZE)) with 88 in D7.
  cbn [app Nat.add] in D7, E7.
  replace (base + HEADER_SIZE) with (base + 32) in E7 by zlia.
  exists s7. split; [|split; [exact D7 | now rewrite B7]].
  (* the facts the asserts test, state by state *)
  pose proof D1 as (_ & _ & (S1 & F1 & _)).
  pose proof D2 as (_ & _ & (_ & _ & _ & _ & (S2 & F2 & _))).
  pose proof D3 as (_ & _ & (_ & _ & _ & _ & (_ & _ & _ & _ & (S3 & F3 & _)))).
  pose proof D4 as (_ & _ & (_ & F4 & _)).
  pose proof D5 as (_ & _ & (S5 & _)).
  pose proof D6 as (H6 & T6 & (S6 & _)).
  pose proof D7 as (H7 & T7 & (S7 & F7 & _ & N7 & (_ & F7' & _))).
  cbn [block_addr fst map List.last first_addr] in *.
  assert (L3 : free_list_len (4 + fuel) s3 = Some 3%nat).
  { apply (free_list_len_describes s3 _ _ D3); [|cbn; lia].
    repeat constructor; cbn [block_addr fst]; zlia. }
  assert (L5 : free_list_len (4 + fuel) s5 = Some 2%nat).
  { apply (free_list_len_describes s5 _ _ D5); [|cbn; lia].
    repeat constructor; cbn [block_addr fst]; zlia. }
  assert (L6 : free_list_len (4 + fuel) s6 = Some 1%nat).
  { apply (free_list_len_describes s6 _ _ D6); [|cbn; lia].
    repeat constructor; cbn [block_addr fst]; zlia. }
  assert (L7 : free_list_len (4 + fuel) s7 = Some 2%nat).
  { apply (free_list_len_describes s7 _ _ D7); [|cbn; lia].
    repeat constructor; cbn [block_addr fst]; zlia. }
  cbn [Nat.add] in *.
  unfold main.
  rewrite (bind_xmalloc _ _ _ _ _ _ E1). cbv zeta. rewrite Hh1.
  rewrite bind_assert by (apply size_is_true; exact S1).
  rewrite bind_assert by (apply free_is_true; exact F1).
  rewrite (bind_xmalloc _ _ _ _ _ _ E2). rewrite Hh2.
  rewrite bind_assert by (apply size_is_true; exact S2).
  rewrite bind_assert by (apply free_is_true; exact F2).
  rewrite (bind_xmalloc _ _ _ _ _ _ E3). rewrite Hh3.
  rewrite bind_assert by (apply size_is_true; exact S3).
  rewrite bind_assert by (apply free_is_true; exact F3).
  rewrite (bind_assert_len _ _ _ _ L3).
  rewrite bind_xfree. fold s4.
  rewrite bind_assert by (apply free_is_true; exact F4).
  rewrite bind_xfree. fold s5.
  rewrite bind_assert by (apply free_is_true; exact F5).
  rewrite bind_assert by (apply size_is_true; exact S5).
  rewrite (bind_assert_len _ _ _ _ L5).
  rewrite bind_xfree. fold s6.
  rewrite bind_assert by (apply free_is_true; exact F6).
  rewrite bind_assert by (apply size_is_true; exact S6).
  rewrite (bind_assert_len _ _ _ _ L6).
  rewrite bind_assert by (apply Z.eqb_eq; now rewrite H6).
  rewrite bind_assert by (apply Z.eqb_eq; now rewrite T6).
  rewrite (bind_xmalloc _ _ _ _ _ _ E7). rewrite Hh1.
  rewrite bind_assert by (apply size_is_true; exact S7).
  rewrite bind_assert by (apply free_is_true; exact F7).
  rewrite bind_assert by (apply Z.eqb_eq; now rewrite H7).
  unfold bind at 1. rewrite N7.
  rewrite bind_assert by (apply Z.eqb_eq; now rewrite T7).
  rewrite bind_assert by (apply free_is_true; exact F7').
  rewrite (bind_assert_len _ _ _ _ L7).
  reflexivity.
Qed.

(** The self-test in a process whose break starts at 4096 and may rise to
    65536. *)
Lemma main_passes_witness :
  0 < 4096 /\ 4096 + 168 <= 65536 /\ 65536 < modulus
  /\ 4096 + 576 <= modulus /\ (3 < 4)%nat
  /\ exists st',
       main 4 (fresh ∅ 4096 65536) = Some (Some (0, st'))
       /\ describes st' [(4096, 16, false); (4096 + 544, 88, true)]
       /\ brk st' = 4096 + 168.
Proof.
  assert (H1 : 0 < 4096) by lia.
  assert (H2 : 4096 + 168 <= 65536) by lia.
  assert (H3 : 65536 < modulus) by reflexivity.
  assert (H4 : 4096 + 576 <= modulus) by (vm_compute; discriminate).
  assert (H5 : (3 < 4)%nat) by lia.
  repeat (split; [assumption|]).
  exact (main_passes ∅ 4096 65536 4 H1 H2 H3 H4 H5).
Defined.

(** ** What a release leaves alone *)






(** ** What an allocation leaves alone *)






(** ** Release, then allocate *)

(** X14: a block that is released without being merged is the one the
    next request gets, when the request fits in it and in no block before
    it: [xmalloc] after [xfree] hands back the very pointer released.  The
    place [rhs_address] gives to the header this allocation splits off is
    taken to lie in the heap, between the block and the break, so that the
    stores of the split are stores the process may carry out. *)
Theorem released_block_is_reused (fuel : nat) (s : Z) (st : heap)
    (pre : list (Z * Z * bool)) (p sz : Z) (post : list (Z * Z * bool)) :
  describes st (pre ++ (p, sz, false) :: post) ->
  well_placed (pre ++ (p, sz, false) :: post) ->
  p + HEADER_SIZE < modulus ->
  post = [] \/ (exists n sn r, post = (n, sn, false) :: r) ->
  pre = [] \/ (exists l q sq, pre = l ++ [(q, sq, false)]) ->
  Forall (fun b => block_fits (ALIGN s) b = false) pre ->
  ALIGN s <= sz ->
  p <= rhs_address p (ALIGN s) ->
  rhs_address p (ALIGN s) + HEADER_SIZE <= brk st ->
  (length (pre ++ (p, sz, false) :: post) < fuel)%nat ->
  exists st',
    xmalloc fuel s (xfree (p + HEADER_SIZE) st) = Some (p + HEADER_SIZE, st').
Proof.
  intros Hd Hwp Hptr Hnf Hpf Hnofit Hle _ _ Hlen.
  pose proof (release_refines_neither st pre p sz false post Hd Hwp Hptr
                Hnf Hpf) as Hd'.
  destruct (well_placed_around _ _ _ Hwp) as (Hpok & Hpre & Hpost & _).
  cbn [block_addr fst] in *.
  revert Hd'. generalize (xfree (p + HEADER_SIZE) st). intros st1 Hd'.
  apply describes_seg in Hd' as (Hhead & _ & Hseg).
  assert (Hoks : Forall header_ok (addrs (pre ++ (p, sz, true) :: post))).
  { apply List.Forall_forall. intros c Hc. rewrite addrs_app in Hc.
    apply in_app_or in Hc. cbn [In block_addr fst] in Hc.
    destruct Hc as [Hc|[Hc|Hc]];
      [now apply Hpre | subst c; exact Hpok | now apply Hpost]. }
  assert (Hlen' : (length (pre ++ (p, sz, true) :: post) < fuel)%nat).
  { rewrite length_app in *. exact Hlen. }
  pose proof (scan_described (mem st1) (ALIGN s) _ NULL fuel Hseg Hoks Hlen')
    as Hscan.
  rewrite (chosen_found _ _ _ _ _ _ Hnofit Hle), <- Hhead in Hscan.
  assert (Hhne : head st1 <> NULL).
  { rewrite Hhead, first_addr_app.
    destruct pre as [|c r']; cbn [first_addr block_addr fst].
    - destruct Hpok. unfold NULL. lia.
    - destruct (Hpre (block_addr c)) as ((Hc & _) & _); [now left|].
      unfold NULL. lia. }
  assert (Hpne : p <> NULL) by (destruct Hpok; unfold NULL; lia).
  assert (Hw : wrap (p + HEADER_SIZE) = p + HEADER_SIZE).
  { apply wrap_small. unfold header_ok in Hpok. zlia. }
  unfold xmalloc, search_free_list. rewrite Hscan.
  apply Z.eqb_neq in Hhne, Hpne. rewrite Hhne, Hpne.
  destruct (can_split_block (mem st1) p (ALIGN s));
    [unfold split_block|]; cbv beta iota zeta;
    rewrite ?Hpne, Hw; eexists; reflexivity.
Qed.

(** The block of 600 bytes between two blocks of 8 bytes is released and
    8 bytes are requested: the header split off at 4424 lies below the
    break at 4808. *)
Lemma released_block_is_reused_witness :
  describes wide_middle
            ([(4096, 8, false)] ++ (4136, 600, false) :: [(4768, 8, false)])
  /\ well_placed
       ([(4096, 8, false)] ++ (4136, 600, false) :: [(4768, 8, false)])
  /\ 4136 + HEADER_SIZE < modulus
  /\ ALIGN 8 <= 600
  /\ 4136 <= rhs_address 4136 (ALIGN 8)
  /\ rhs_address 4136 (ALIGN 8) + HEADER_SIZE <= brk wide_middle
  /\ exists st',
       xmalloc 4 8 (xfree (4136 + HEADER_SIZE) wide_middle)
       = Some (4136 + HEADER_SIZE, st').
Proof.
  assert (H1 : describes wide_middle
                 ([(4096, 8, false)]
                  ++ (4136, 600, false) :: [(4768, 8, false)]))
    by (vm_compute; repeat split).
  assert (H2 : well_placed
                 ([(4096, 8, false)]
                  ++ (4136, 600, false) :: [(4768, 8, false)])).
  { split; cbn; repeat constructor; unfold apart; vm_compute;
      try discriminate; try reflexivity;
      left; discriminate. }
  assert (H3 : 4136 + HEADER_SIZE < modulus) by reflexivity.
  assert (H4 : ALIGN 8 <= 600) by (vm_compute; discriminate).
  assert (H5 : 4136 <= rhs_address 4136 (ALIGN 8))
    by (vm_compute; discriminate).
  assert (H6 : rhs_address 4136 (ALIGN 8) + HEADER_SIZE <= brk wide_middle)
    by (vm_compute; discriminate).
  repeat (split; [assumption|]).
  apply (released_block_is_reused 4 8 _ [(4096, 8, false)] 4136 600
           [(4768, 8, false)] H1 H2 H3).
  - right. now exists 4768, 8, [].
  - right. now exists [], 4096, 8.
  - repeat constructor.
  - exact H4.
  - exact H5.
  - exact H6.
  - simpl. lia.
Defined.
